(** * Account backend of the restaurant recommender: [server.js]

    A shallow embedding of the Express handlers of [server.js] (signup,
    login, preference update, user lookup) and of the three functions that
    own [users.json], followed by the properties of the account store.

    Conventions of the embedding.
    - A JavaScript string is the list of its UTF-16 code units.
    - A value taken from a JSON request body is a [JsVal]: undefined (field
      absent), null, a boolean, a number, a string or an array.  Numbers are
      the integer-valued ones (ids, counters, ratings such as [3.0]), below
      the magnitudes where a double stops being exact; object-valued request
      fields are not modelled.
    - A user record and a request body are JavaScript objects: finite maps
      from property names to values.
    - [bcryptjs], [JSON.parse], [JSON.stringify], the clock and the salt
      generator are not code of this repository: they are parameters.
    - A route handler is a function of [data], the document its call of
      [readUsers()] returns; its outcome holds the response it sends and
      the document it passes to [writeUsers], if any.  [serve] puts a
      handler between [readUsers] and [writeUsers] on the file. *)

From stdpp Require Import base strings gmap list fin_maps.
From Stdlib Require Import ZArith NArith Lia DecimalString.
From Stdlib Require DecimalPos.

Local Open Scope Z_scope.

(** ** Strings *)

Definition jsstring := list N.

(** Code units of a literal of the source file, which is UTF-8 encoded. *)
Fixpoint utf16_of_utf8 (bs : list N) : jsstring :=
  match bs with
  | [] => []
  | b0 :: t0 =>
    if (b0 <? 128)%N then b0 :: utf16_of_utf8 t0
    else match t0 with
    | [] => []
    | b1 :: t1 =>
      if (b0 <? 224)%N then ((b0 `mod` 32) * 64 + b1 `mod` 64)%N :: utf16_of_utf8 t1
      else match t1 with
      | [] => []
      | b2 :: t2 =>
        if (b0 <? 240)%N
        then ((b0 `mod` 16) * 4096 + (b1 `mod` 64) * 64 + b2 `mod` 64)%N
               :: utf16_of_utf8 t2
        else match t2 with
        | [] => []
        | b3 :: t3 =>
          let cp := ((b0 `mod` 8) * 262144 + (b1 `mod` 64) * 4096
                     + (b2 `mod` 64) * 64 + b3 `mod` 64 - 65536)%N in
          (55296 + cp `div` 1024)%N :: (56320 + cp `mod` 1024)%N
            :: utf16_of_utf8 t3
        end
      end
    end
  end.

Definition lit (s : string) : jsstring :=
  utf16_of_utf8 (map Ascii.N_of_ascii (String.list_ascii_of_string s)).

(** ** Values of a JSON body *)

#[warnings="-register-all"]
Inductive JsVal : Type :=
  | JUndefined
  | JNull
  | JBool (b : bool)
  | JNum (n : Z)
  | JStr (s : jsstring)
  | JArr (elems : list JsVal).

(** ToBoolean: what [!x] and [x || y] test. *)
Definition truthy (v : JsVal) : bool :=
  match v with
  | JUndefined | JNull => false
  | JBool b => b
  | JNum n => negb (n =? 0)
  | JStr s => negb (bool_decide (s = []))
  | JArr _ => true
  end.

(** [a || b] *)
Definition js_or (a b : JsVal) : JsVal := if truthy a then a else b.

(** [a === b] for two values that come from different places of parsed
    JSON: primitives are compared by value, two arrays are never the same
    object. *)
Definition strict_eq (a b : JsVal) : bool :=
  match a, b with
  | JUndefined, JUndefined => true
  | JNull, JNull => true
  | JBool x, JBool y => bool_decide (x = y)
  | JNum x, JNum y => x =? y
  | JStr x, JStr y => bool_decide (x = y)
  | _, _ => false
  end.

(** [Array.isArray(v)] *)
Definition isArray (v : JsVal) : bool :=
  match v with JArr _ => true | _ => false end.

(** Number::toString for an integer: its decimal digits. *)
Definition num_to_string (n : Z) : jsstring :=
  map Ascii.N_of_ascii
      (String.list_ascii_of_string (NilZero.string_of_int (Z.to_int n))).

(** ToString, as [RegExp.prototype.test] and [parseInt] apply it to their
    argument.  An array is its elements joined by commas, null and
    undefined elements giving the empty string. *)
Fixpoint to_string (v : JsVal) : jsstring :=
  match v with
  | JUndefined => lit "undefined"
  | JNull => lit "null"
  | JBool true => lit "true"
  | JBool false => lit "false"
  | JNum n => num_to_string n
  | JStr s => s
  | JArr l =>
    (fix join (l : list JsVal) : jsstring :=
       match l with
       | [] => []
       | e :: l' =>
         let s := match e with
                  | JUndefined | JNull => []
                  | _ => to_string e
                  end in
         match l' with
         | [] => s
         | _ :: _ => s ++ 44%N :: join l'
         end
       end) l
  end.

(** ** The regular expression of [validateEmail] *)

(** [\s] of a JavaScript regular expression: WhiteSpace and LineTerminator. *)
Definition is_space (c : N) : bool :=
  ((9 <=? c) && (c <=? 13) || (c =? 32) || (c =? 160) || (c =? 5760)
   || (8192 <=? c) && (c <=? 8202) || (c =? 8232) || (c =? 8233)
   || (c =? 8239) || (c =? 8287) || (c =? 12288) || (c =? 65279))%N.

Inductive regex : Type :=
  | RNone
  | REps
  | RClass (p : N → bool)
  | RSeq (r1 r2 : regex)
  | RAlt (r1 r2 : regex)
  | RStar (r : regex).

(** [r+] *)
Definition RPlus (r : regex) : regex := RSeq r (RStar r).

Fixpoint nullable (r : regex) : bool :=
  match r with
  | RNone => false
  | REps => true
  | RClass _ => false
  | RSeq r1 r2 => nullable r1 && nullable r2
  | RAlt r1 r2 => nullable r1 || nullable r2
  | RStar _ => true
  end.

Fixpoint deriv (c : N) (r : regex) : regex :=
  match r with
  | RNone | REps => RNone
  | RClass p => if p c then REps else RNone
  | RSeq r1 r2 =>
    if nullable r1 then RAlt (RSeq (deriv c r1) r2) (deriv c r2)
    else RSeq (deriv c r1) r2
  | RAlt r1 r2 => RAlt (deriv c r1) (deriv c r2)
  | RStar r1 => RSeq (deriv c r1) (RStar r1)
  end.

(** [^r$] tested against a whole string. *)
Fixpoint regex_test (r : regex) (s : jsstring) : bool :=
  match s with
  | [] => nullable r
  | c :: s' => regex_test (deriv c r) s'
  end.

(** The strings a regular expression denotes. *)
Inductive lang : regex → jsstring → Prop :=
  | lang_eps : lang REps []
  | lang_class p c : p c = true → lang (RClass p) [c]
  | lang_seq r1 r2 s1 s2 : lang r1 s1 → lang r2 s2 → lang (RSeq r1 r2) (s1 ++ s2)
  | lang_alt_l r1 r2 s : lang r1 s → lang (RAlt r1 r2) s
  | lang_alt_r r1 r2 s : lang r2 s → lang (RAlt r1 r2) s
  | lang_star_nil r : lang (RStar r) []
  | lang_star_cons r s1 s2 :
      lang r s1 → lang (RStar r) s2 → lang (RStar r) (s1 ++ s2).

(** [[^\s@]] *)
Definition not_space_at (c : N) : bool := negb (is_space c || (c =? 64)%N).

Definition is_char (a : N) (c : N) : bool := (c =? a)%N.

(** [/^[^\s@]+@[^\s@]+\.[^\s@]+$/] *)
Definition emailRegex : regex :=
  RSeq (RPlus (RClass not_space_at))
    (RSeq (RClass (is_char 64))
       (RSeq (RPlus (RClass not_space_at))
          (RSeq (RClass (is_char 46))
             (RPlus (RClass not_space_at))))).

Definition validateEmail (email : JsVal) : bool :=
  regex_test emailRegex (to_string email).

(** ** [parseInt] with no radix *)

Definition digit_value (radix : N) (c : N) : option Z :=
  let d := (if (48 <=? c) && (c <=? 57) then Some (c - 48)
            else if (97 <=? c) && (c <=? 122) then Some (c - 87)
            else if (65 <=? c) && (c <=? 90) then Some (c - 55)
            else None)%N in
  match d with
  | Some n => if (n <? radix)%N then Some (Z.of_N n) else None
  | None => None
  end.

(** The longest prefix of digits, read in the radix; [None] when it is
    empty (the result is NaN). *)
Fixpoint read_digits (radix : N) (acc : option Z) (s : jsstring) : option Z :=
  match s with
  | [] => acc
  | c :: s' =>
    match digit_value radix c with
    | Some d => read_digits radix (Some (default 0 acc * Z.of_N radix + d)) s'
    | None => acc
    end
  end.

Definition strip_sign (s : jsstring) : Z * jsstring :=
  match s with
  | 45%N :: s' => (-1, s')
  | 43%N :: s' => (1, s')
  | _ => (1, s)
  end.

Definition strip_hex_prefix (s : jsstring) : N * jsstring :=
  match s with
  | 48%N :: 120%N :: s' => (16%N, s')
  | 48%N :: 88%N :: s' => (16%N, s')
  | _ => (10%N, s)
  end.

Fixpoint skip_space (s : jsstring) : jsstring :=
  match s with
  | c :: s' => if is_space c then skip_space s' else s
  | [] => []
  end.

(** [parseInt(v)]; [None] is NaN. *)
Definition parseInt (v : JsVal) : option Z :=
  let '(sign, s1) := strip_sign (skip_space (to_string v)) in
  let '(radix, s2) := strip_hex_prefix s1 in
  match read_digits radix None s2 with
  | Some n => Some (sign * n)
  | None => None
  end.

(** [v === parseInt(x)], the right-hand side being a number or NaN. *)
Definition strict_eq_num (v : JsVal) (n : option Z) : bool :=
  match v, n with
  | JNum a, Some b => a =? b
  | _, _ => false
  end.


(** ** Arrays *)

(** [arr.some(p)] *)
Definition array_some {A} (p : A → bool) (l : list A) : bool := existsb p l.

(** [arr.find(p)]: the first element that satisfies [p]; [None] is
    undefined. *)
Fixpoint array_find {A} (p : A → bool) (l : list A) : option A :=
  match l with
  | [] => None
  | x :: l' => if p x then Some x else array_find p l'
  end.

(** [arr.findIndex(p)]: the first index whose element satisfies [p];
    [None] is -1. *)
Fixpoint array_findIndex {A} (p : A → bool) (l : list A) : option nat :=
  match l with
  | [] => None
  | x :: l' => if p x then Some 0%nat else S <$> array_findIndex p l'
  end.

(** ** Objects, the store, responses *)

(** [o.k]: undefined when the object has no such property. *)
Definition prop (o : gmap string JsVal) (k : string) : JsVal :=
  default JUndefined (o !! k).

(** The document kept in [users.json]. *)
Record Store : Type := mkStore {
  users : list (gmap string JsVal);
  nextId : Z
}.

(** [{ users: [], nextId: 1 }] *)
Definition initialData : Store := {| users := []; nextId := 1 |}.

(** A property of a response body: a plain value or a nested object. *)
Inductive RVal : Type :=
  | RJs (v : JsVal)
  | RObj (o : gmap string JsVal).

Record Response : Type := mkResponse {
  status : Z;
  body : gmap string RVal
}.

(** What a handler does: it sends one response, after calling
    [writeUsers(data)] ([written = Some data]) or not; or an exception
    leaves it before anything is sent or written. *)
Inductive Outcome : Type :=
  | Sent (r : Response) (written : option Store)
  | Threw.

(** What one call takes from outside: the salt [bcrypt.genSaltSync(10)]
    draws and the text of [new Date().toISOString()]. *)
Record Env : Type := mkEnv {
  salt : jsstring;
  now : jsstring
}.

(** ** The record store: [users.json] *)

(** The file: its content when it exists, and whether a write succeeds. *)
Record FileSystem : Type := mkFS {
  content : option jsstring;
  writable : bool
}.

Definition existsSync (fs : FileSystem) : bool :=
  match content fs with Some _ => true | None => false end.

(** [None]: the call throws. *)
Definition readFileSync (fs : FileSystem) : option jsstring := content fs.

Definition writeFileSync (fs : FileSystem) (text : jsstring)
    : option FileSystem :=
  if writable fs then Some {| content := Some text; writable := true |}
  else None.

Section RecordStore.

(** [JSON.parse], [None] when it throws, and [JSON.stringify(_, null, 2)]. *)
Variable JSON_parse : jsstring → option Store.
Variable JSON_stringify : Store → jsstring.

(** [None]: the exception of [writeFileSync] leaves the function. *)
Definition initializeUsersFile (fs : FileSystem) : option FileSystem :=
  if negb (existsSync fs) then writeFileSync fs (JSON_stringify initialData)
  else Some fs.

Definition readUsers (fs : FileSystem) : Store * FileSystem :=
  match readFileSync fs with
  | Some data =>
    match JSON_parse data with
    | Some d => (d, fs)
    | None => ({| users := []; nextId := 1 |}, fs)
    end
  | None => ({| users := []; nextId := 1 |}, fs)
  end.

Definition writeUsers (fs : FileSystem) (data : Store) : FileSystem :=
  match writeFileSync fs (JSON_stringify data) with
  | Some fs' => fs'
  | None => fs
  end.

End RecordStore.

(** ** The account service: the four routes *)

Definition msg_name : string := "Vui lòng nhập họ và tên".
Definition msg_email : string := "Email không hợp lệ".
Definition msg_weak : string := "Mật khẩu phải có ít nhất 8 ký tự".
Definition msg_mismatch : string := "Mật khẩu không khớp".
Definition msg_taken : string := "Email này đã được đăng ký".
Definition msg_created : string := "Tài khoản được tạo thành công!".
Definition msg_missing_credentials : string := "Vui lòng nhập email và mật khẩu".
Definition msg_invalid_credentials : string := "Email hoặc mật khẩu không đúng".
Definition msg_logged_in : string := "Đăng nhập thành công!".
Definition msg_missing_userId : string := "Thiếu userId".
Definition msg_not_found : string := "User không tìm thấy".
Definition msg_updated : string := "Preferences đã được cập nhật!".

(** [res.status(st).json({ success: false, message: msg })] *)
Definition failure (st : Z) (msg : string) : Outcome :=
  Sent {| status := st;
          body := <["success" := RJs (JBool false)]>
                  (<["message" := RJs (JStr (lit msg))]> ∅) |} None.

(** [password.length < 8] for a truthy [password]: a string and an array
    have a length, on a boolean and on a number [.length] is undefined and
    the comparison is false. *)
Definition length_lt (v : JsVal) (n : nat) : bool :=
  match v with
  | JStr s => bool_decide (length s < n)%nat
  | JArr l => bool_decide (length l < n)%nat
  | _ => false
  end.

Section AccountService.

(** [bcrypt.hashSync(password, salt)] and [bcrypt.compareSync(password,
    hash)]; [None] when the call throws. *)
Variable bcrypt_hashSync : JsVal → jsstring → option jsstring.
Variable bcrypt_compareSync : JsVal → JsVal → option bool.

Definition hashPassword (env : Env) (password : JsVal) : option jsstring :=
  bcrypt_hashSync password (salt env).

Definition verifyPassword (password hash : JsVal) : option bool :=
  bcrypt_compareSync password hash.

(** The object literal [newUser]. *)
Definition newUser (data : Store) (firstName lastName email phone : JsVal)
    (hash : jsstring) (env : Env) : gmap string JsVal :=
  list_to_map
    [ ("id", JNum (nextId data));
      ("firstName", firstName);
      ("lastName", lastName);
      ("email", email);
      ("phone", js_or phone (JStr []));
      ("password", JStr hash);
      ("preferences", JArr []);
      ("dietaryRestrictions", JArr []);
      ("cuisineTypes", JArr []);
      ("priceRange", JStr []);
      ("minRating", JNum 3);
      ("hasPreferences", JBool false);
      ("createdAt", JStr (now env)) ].

(** [POST /api/auth/signup]; [data] is what [readUsers()] returns. *)
Definition api_auth_signup (data : Store) (req_body : gmap string JsVal)
    (env : Env) : Outcome :=
  let firstName := prop req_body "firstName" in
  let lastName := prop req_body "lastName" in
  let email := prop req_body "email" in
  let phone := prop req_body "phone" in
  let password := prop req_body "password" in
  let confirmPassword := prop req_body "confirmPassword" in
  if negb (truthy firstName) || negb (truthy lastName) then
    failure 400 msg_name
  else if negb (truthy email) || negb (validateEmail email) then
    failure 400 msg_email
  else if negb (truthy password) || length_lt password 8 then
    failure 400 msg_weak
  else if negb (strict_eq password confirmPassword) then
    failure 400 msg_mismatch
  else if array_some (λ u, strict_eq (prop u "email") email) (users data) then
    failure 400 msg_taken
  else
    match hashPassword env password with
    | None => Threw
    | Some hash =>
      let user := newUser data firstName lastName email phone hash env in
      let data' := {| users := users data ++ [user];
                      nextId := nextId data + 1 |} in
      Sent {| status := 201;
              body := <["success" := RJs (JBool true)]>
                      (<["message" := RJs (JStr (lit msg_created))]>
                      (<["userId" := RJs (prop user "id")]> ∅)) |}
           (Some data')
    end.

(** [POST /api/auth/login] *)
Definition api_auth_login (data : Store) (req_body : gmap string JsVal)
    : Outcome :=
  let email := prop req_body "email" in
  let password := prop req_body "password" in
  if negb (truthy email) || negb (truthy password) then
    failure 400 msg_missing_credentials
  else
    match array_find (λ u, strict_eq (prop u "email") email) (users data) with
    | None => failure 401 msg_invalid_credentials
    | Some user =>
      match verifyPassword password (prop user "password") with
      | None => Threw
      | Some false => failure 401 msg_invalid_credentials
      | Some true =>
        Sent {| status := 200;
                body := <["success" := RJs (JBool true)]>
                        (<["message" := RJs (JStr (lit msg_logged_in))]>
                        (<["user" := RObj
                             (list_to_map
                                [ ("id", prop user "id");
                                  ("firstName", prop user "firstName");
                                  ("lastName", prop user "lastName");
                                  ("email", prop user "email");
                                  ("hasPreferences",
                                   js_or (prop user "hasPreferences")
                                         (JBool false)) ])]> ∅)) |}
             None
      end
    end.

(** The six assignments of the preference route to [data.users[i]]. *)
Definition set_preferences (req_body : gmap string JsVal)
    (u : gmap string JsVal) : gmap string JsVal :=
  let preferences := prop req_body "preferences" in
  let dietaryRestrictions := prop req_body "dietaryRestrictions" in
  let cuisineTypes := prop req_body "cuisineTypes" in
  let priceRange := prop req_body "priceRange" in
  let minRating := prop req_body "minRating" in
  let u := <["preferences" :=
               if isArray preferences then preferences else JArr []]> u in
  let u := <["dietaryRestrictions" :=
               if isArray dietaryRestrictions then dietaryRestrictions
               else JArr []]> u in
  let u := <["cuisineTypes" :=
               if isArray cuisineTypes then cuisineTypes else JArr []]> u in
  let u := <["priceRange" := js_or priceRange (JStr [])]> u in
  let u := <["minRating" := js_or minRating (JNum 3)]> u in
  <["hasPreferences" := JBool true]> u.

(** [POST /api/auth/preferences] *)
Definition api_auth_preferences (data : Store)
    (req_body : gmap string JsVal) : Outcome :=
  let userId := prop req_body "userId" in
  if negb (truthy userId) then
    failure 400 msg_missing_userId
  else
    match array_findIndex
            (λ u, strict_eq_num (prop u "id") (parseInt userId))
            (users data) with
    | None => failure 404 msg_not_found
    | Some userIndex =>
      match users data !! userIndex with
      | None => Threw
      | Some u =>
        let u' := set_preferences req_body u in
        let data' := {| users := <[userIndex := u']> (users data);
                        nextId := nextId data |} in
        Sent {| status := 200;
                body := <["success" := RJs (JBool true)]>
                        (<["message" := RJs (JStr (lit msg_updated))]>
                        (<["user" := RObj u']> ∅)) |}
             (Some data')
      end
    end.

(** [GET /api/users/:id]; the route parameter is a string. *)
Definition api_users_id (data : Store) (id : jsstring) : Outcome :=
  match array_find
          (λ u, strict_eq_num (prop u "id") (parseInt (JStr id)))
          (users data) with
  | None => failure 404 msg_not_found
  | Some user =>
    (* const { password, ...userWithoutPassword } = user *)
    let userWithoutPassword := delete "password" user in
    Sent {| status := 200;
            body := <["success" := RJs (JBool true)]>
                    (<["user" := RObj userWithoutPassword]> ∅) |}
         None
  end.

(** ** Runs of the service *)

Inductive Request : Type :=
  | Signup (req_body : gmap string JsVal) (env : Env)
  | Login (req_body : gmap string JsVal)
  | Preferences (req_body : gmap string JsVal)
  | GetUser (id : jsstring).

Definition handle (data : Store) (rq : Request) : Outcome :=
  match rq with
  | Signup b env => api_auth_signup data b env
  | Login b => api_auth_login data b
  | Preferences b => api_auth_preferences data b
  | GetUser id => api_users_id data id
  end.

(** The store the next request reads: what the handler wrote, or the
    store as it was. *)
Definition store_after (data : Store) (o : Outcome) : Store :=
  match o with
  | Sent _ (Some data') => data'
  | _ => data
  end.

Inductive reachable : Store → Prop :=
  | reachable_init : reachable initialData
  | reachable_step data rq :
      reachable data → reachable (store_after data (handle data rq)).

End AccountService.


(** One request served on the file: the handler reads the document, and
    the document it writes, if any, goes to the file. *)
Definition serve (JSON_parse : jsstring → option Store)
    (JSON_stringify : Store → jsstring)
    (bcrypt_hashSync : JsVal → jsstring → option jsstring)
    (bcrypt_compareSync : JsVal → JsVal → option bool)
    (fs : FileSystem) (rq : Request) : Outcome * FileSystem :=
  let '(data, fs) := readUsers JSON_parse fs in
  let o := handle bcrypt_hashSync bcrypt_compareSync data rq in
  match o with
  | Sent _ (Some data') => (o, writeUsers JSON_stringify fs data')
  | _ => (o, fs)
  end.

(** ** The validation rules of the signup route, one by one *)

Inductive SignupError : Type :=
  | InvalidName
  | InvalidEmail
  | WeakPassword
  | PasswordMismatch
  | EmailTaken.

Definition signup_message (e : SignupError) : string :=
  match e with
  | InvalidName => msg_name
  | InvalidEmail => msg_email
  | WeakPassword => msg_weak
  | PasswordMismatch => msg_mismatch
  | EmailTaken => msg_taken
  end.

(** Rule 1: both names are present and not empty. *)
Definition name_rule (firstName lastName : JsVal) : bool :=
  truthy firstName && truthy lastName.

(** Rule 2: the email is present and matches the pattern. *)
Definition email_rule (email : JsVal) : bool :=
  truthy email && regex_test emailRegex (to_string email).

(** Rule 3: the password is present and not shorter than 8. *)
Definition password_rule (password : JsVal) : bool :=
  truthy password && negb (length_lt password 8).

(** Rule 4: the confirmation is the password. *)
Definition confirm_rule (password confirmPassword : JsVal) : bool :=
  strict_eq password confirmPassword.

(** Rule 5: no record of the store has this email. *)
Definition fresh_rule (data : Store) (email : JsVal) : bool :=
  negb (existsb (λ u, strict_eq (prop u "email") email) (users data)).

(** The first rule a request breaks, in the order 1 to 5. *)
Definition first_failing_rule (data : Store) (req_body : gmap string JsVal)
    : option SignupError :=
  if negb (name_rule (prop req_body "firstName") (prop req_body "lastName"))
  then Some InvalidName
  else if negb (email_rule (prop req_body "email")) then Some InvalidEmail
  else if negb (password_rule (prop req_body "password")) then Some WeakPassword
  else if negb (confirm_rule (prop req_body "password")
                             (prop req_body "confirmPassword"))
  then Some PasswordMismatch
  else if negb (fresh_rule data (prop req_body "email")) then Some EmailTaken
  else None.



Definition outcome_status (o : Outcome) : option Z :=
  match o with
  | Sent r _ => Some (status r)
  | Threw => None
  end.

Definition outcome_written (o : Outcome) : option Store :=
  match o with
  | Sent _ w => w
  | Threw => None
  end.

(** ** Concrete requests, to run the handlers *)

(** A stand-in for [bcryptjs] with the shape of its interface: a text
    password is "hashed" to the salt followed by the password, anything
    else is refused.  It is no hash function; it only lets the handlers
    run on the examples below. *)
Definition example_hashSync (password : JsVal) (salt : jsstring)
    : option jsstring :=
  match password with
  | JStr p => Some (salt ++ p)
  | _ => None
  end.

Definition example_compareSync (password hash : JsVal) : option bool :=
  match password, hash with
  | JStr p, JStr h => Some (bool_decide (drop 4 h = p))
  | _, _ => None
  end.

Definition example_env : Env :=
  {| salt := lit "$2a$"; now := lit "2024-01-01T00:00:00.000Z" |}.

Definition signup_body (firstName lastName email password confirm : string)
    : gmap string JsVal :=
  list_to_map
    [ ("firstName", JStr (lit firstName));
      ("lastName", JStr (lit lastName));
      ("email", JStr (lit email));
      ("phone", JStr (lit ""));
      ("password", JStr (lit password));
      ("confirmPassword", JStr (lit confirm)) ].

Definition ana_signup : gmap string JsVal :=
  signup_body "Ana" "Lee" "ana@x.com" "pass1234" "pass1234".


(** The store after Ana's signup on the empty store. *)
Definition ana_store : Store :=
  store_after initialData
    (api_auth_signup example_hashSync initialData ana_signup example_env).

Definition ana_preferences : gmap string JsVal :=
  list_to_map
    [ ("userId", JNum 1);
      ("preferences", JArr [JStr (lit "vegan")]);
      ("dietaryRestrictions", JArr [JStr (lit "gluten-free")]);
      ("cuisineTypes", JArr [JStr (lit "italian")]);
      ("priceRange", JStr (lit "$$"));
      ("minRating", JNum 4) ].

(** The names of the properties of a record, as [newUser] lists them. *)
Definition user_fields : gset string :=
  {[ "id"; "firstName"; "lastName"; "email"; "phone"; "password";
     "preferences"; "dietaryRestrictions"; "cuisineTypes"; "priceRange";
     "minRating"; "hasPreferences"; "createdAt" ]}.

(** The properties the preference route assigns. *)
Definition preference_fields : gset string :=
  {[ "preferences"; "dietaryRestrictions"; "cuisineTypes"; "priceRange";
     "minRating"; "hasPreferences" ]}.

(** The response has a property named [k], at the top or inside an
    object it carries. *)
Definition has_property (k : string) (r : Response) : Prop :=
  is_Some (body r !! k)
  ∨ ∃ k' o, body r !! k' = Some (RObj o) ∧ is_Some (o !! k).

(** The sanitized view the login route builds of a record. *)
Definition login_view (user : gmap string JsVal) : gmap string JsVal :=
  list_to_map
    [ ("id", prop user "id");
      ("firstName", prop user "firstName");
      ("lastName", prop user "lastName");
      ("email", prop user "email");
      ("hasPreferences", js_or (prop user "hasPreferences") (JBool false)) ].

Definition login_body (email password : string) : gmap string JsVal :=
  list_to_map
    [ ("email", JStr (lit email)); ("password", JStr (lit password)) ].

(** How many records of the store have the email [e]. *)
Definition count_email (e : JsVal) (data : Store) : nat :=
  length (List.filter (λ u, strict_eq (prop u "email") e) (users data)).

Definition ana_request (rq : nat) : Request :=
  match rq with
  | 0%nat => Signup ana_signup example_env
  | 1%nat => Login (login_body "ana@x.com" "pass1234")
  | 2%nat => Preferences ana_preferences
  | _ => GetUser (lit "1")
  end.

(** [users.json] missing, in a directory that can be written. *)
Definition absent_file : FileSystem := {| content := None; writable := true |}.

(** [users.json] holding the text [oops]. *)
Definition broken_file : FileSystem :=
  {| content := Some (lit "oops"); writable := true |}.

(** Stand-ins for [JSON.parse] and [JSON.stringify] on the two texts the
    examples need: the empty store is written as [{}], and nothing else
    parses. *)
Definition example_JSON_stringify (data : Store) : jsstring := lit "{}".

Definition example_JSON_parse (text : jsstring) : option Store :=
  if bool_decide (text = lit "{}") then Some initialData else None.

(** The code units of an ASCII text. *)
Definition ascii_codes (s : string) : jsstring :=
  map Ascii.N_of_ascii (String.list_ascii_of_string s).

(** The number a run of decimal digits denotes when it is read after the
    digits of [acc]. *)
Fixpoint uint_value (acc : Z) (d : Decimal.uint) : Z :=
  match d with
  | Decimal.Nil => acc
  | Decimal.D0 d => uint_value (acc * 10 + 0) d
  | Decimal.D1 d => uint_value (acc * 10 + 1) d
  | Decimal.D2 d => uint_value (acc * 10 + 2) d
  | Decimal.D3 d => uint_value (acc * 10 + 3) d
  | Decimal.D4 d => uint_value (acc * 10 + 4) d
  | Decimal.D5 d => uint_value (acc * 10 + 5) d
  | Decimal.D6 d => uint_value (acc * 10 + 6) d
  | Decimal.D7 d => uint_value (acc * 10 + 7) d
  | Decimal.D8 d => uint_value (acc * 10 + 8) d
  | Decimal.D9 d => uint_value (acc * 10 + 9) d
  end.

(** The store after a sequence of requests, each served on the store the
    one before it left. *)
Fixpoint run_requests (bcrypt_hashSync : JsVal → jsstring → option jsstring)
    (bcrypt_compareSync : JsVal → JsVal → option bool)
    (data : Store) (rqs : list Request) : Store :=
  match rqs with
  | [] => data
  | rq :: rqs =>
    run_requests bcrypt_hashSync bcrypt_compareSync
      (store_after data (handle bcrypt_hashSync bcrypt_compareSync data rq))
      rqs
  end.

(** What the routes guarantee of a stored record: names and email that
    passed the signup rules, a text password hash and creation time, the
    three tag properties arrays, a text or truthy phone and price range, a
    truthy minimum rating and a boolean flag. *)
Definition valid_record (u : gmap string JsVal) : Prop :=
  name_rule (prop u "firstName") (prop u "lastName") = true
  ∧ email_rule (prop u "email") = true
  ∧ (∃ hash, u !! "password" = Some (JStr hash))
  ∧ (∃ t, u !! "createdAt" = Some (JStr t))
  ∧ isArray (prop u "preferences") = true
  ∧ isArray (prop u "dietaryRestrictions") = true
  ∧ isArray (prop u "cuisineTypes") = true
  ∧ (truthy (prop u "phone") = true ∨ prop u "phone" = JStr [])
  ∧ (truthy (prop u "priceRange") = true ∨ prop u "priceRange" = JStr [])
  ∧ truthy (prop u "minRating") = true
  ∧ (∃ b, u !! "hasPreferences" = Some (JBool b)).

(** A signup whose email is an array holding one address. *)
Definition array_email_signup : gmap string JsVal :=
  <["email" := JArr [JStr (lit "ana@x.com")]]> ana_signup.

(** A codec for two documents: the empty store and the store after Ana's
    signup. *)
Definition ana_JSON_stringify (data : Store) : jsstring :=
  if bool_decide (nextId data = 2) then lit "ana" else lit "{}".

Definition ana_JSON_parse (text : jsstring) : option Store :=
  if bool_decide (text = lit "ana") then Some ana_store
  else if bool_decide (text = lit "{}") then Some initialData
  else None.

(** [users.json] holding the empty store. *)
Definition fresh_file : FileSystem :=
  {| content := Some (lit "{}"); writable := true |}.

(** [users.json] in a place that cannot be written. *)
Definition readonly_file : FileSystem :=
  {| content := Some (lit "{}"); writable := false |}.

(** The store after Ana set her preferences. *)
Definition ana_store_with_preferences : Store :=
  store_after ana_store (api_auth_preferences ana_store ana_preferences).

(** Requests served after Ana's signup: she sets her preferences, logs in
    and is looked up, and a second account is created. *)
Definition later_requests : list Request :=
  [ Preferences ana_preferences;
    Login (login_body "ana@x.com" "pass1234");
    GetUser (lit "1");
    Signup (signup_body "Bo" "Li" "bo@x.com" "12345678" "12345678")
      example_env ].

(** * Properties *)

Section Properties.

Variable hashSync : JsVal → jsstring → option jsstring.
Variable compareSync : JsVal → JsVal → option bool.
Variable JSON_parse : jsstring → option Store.
Variable JSON_stringify : Store → jsstring.

Lemma signup_by_rules (data : Store) (req_body : gmap string JsVal) (env : Env) :
  api_auth_signup hashSync data req_body env =
  match first_failing_rule data req_body with
  | Some e => failure 400 (signup_message e)
  | None =>
    match hashSync (prop req_body "password") (salt env) with
    | None => Threw
    | Some hash =>
      let user := newUser data (prop req_body "firstName")
                    (prop req_body "lastName") (prop req_body "email")
                    (prop req_body "phone") hash env in
      Sent {| status := 201;
              body := <["success" := RJs (JBool true)]>
                      (<["message" := RJs (JStr (lit msg_created))]>
                      (<["userId" := RJs (JNum (nextId data))]> ∅)) |}
           (Some {| users := users data ++ [user];
                    nextId := nextId data + 1 |})
    end
  end.
Proof.
  unfold api_auth_signup, first_failing_rule, name_rule, email_rule,
    password_rule, confirm_rule, fresh_rule, validateEmail, array_some,
    hashPassword.
  destruct (truthy (prop req_body "firstName")); [|reflexivity].
  destruct (truthy (prop req_body "lastName")); [|reflexivity].
  destruct (truthy (prop req_body "email")); [|reflexivity].
  destruct (regex_test _ _); [|reflexivity].
  destruct (truthy (prop req_body "password")); [|reflexivity].
  destruct (length_lt _ _); [reflexivity|].
  destruct (strict_eq (prop req_body "password") _); [|reflexivity].
  destruct (existsb _ _); [reflexivity|].
  cbn [negb orb andb].
  destruct (hashSync _ _); reflexivity.
Qed.

(** ** The matcher decides the language of the expression *)

Lemma lang_seq_inv r1 r2 s :
  lang (RSeq r1 r2) s → ∃ s1 s2, s = s1 ++ s2 ∧ lang r1 s1 ∧ lang r2 s2.
Proof. inversion 1; subst; eauto. Qed.

Lemma lang_alt_inv r1 r2 s : lang (RAlt r1 r2) s → lang r1 s ∨ lang r2 s.
Proof. inversion 1; subst; eauto. Qed.

Lemma lang_class_inv p s : lang (RClass p) s → ∃ c, s = [c] ∧ p c = true.
Proof. inversion 1; subst; eauto. Qed.

Lemma nullable_lang r : nullable r = true ↔ lang r [].
Proof.
  induction r as [| |p|r1 IH1 r2 IH2|r1 IH1 r2 IH2|r IH]; simpl.
  - split; [discriminate | inversion 1].
  - split; [constructor | done].
  - split; [discriminate | inversion 1].
  - rewrite andb_true_iff, IH1, IH2. split.
    + intros [H1 H2]. exact (lang_seq _ _ [] [] H1 H2).
    + intros (s1 & s2 & Heq & H1 & H2)%lang_seq_inv.
      symmetry in Heq. apply app_eq_nil in Heq as [-> ->]. done.
  - rewrite orb_true_iff, IH1, IH2. split.
    + intros [H|H]; [by apply lang_alt_l | by apply lang_alt_r].
    + apply lang_alt_inv.
  - split; [constructor | done].
Qed.

Lemma lang_star_cons_inv r c s :
  lang (RStar r) (c :: s) →
  ∃ s1 s2, s = s1 ++ s2 ∧ lang r (c :: s1) ∧ lang (RStar r) s2.
Proof.
  intros H. remember (RStar r) as r' eqn:Hr. remember (c :: s) as t eqn:Ht.
  revert s Ht.
  induction H as [| | | | | |r0 s1 s2 H1 _ H2 IH2]; intros t' Ht;
    try discriminate.
  injection Hr as ->. destruct s1 as [|c1 s1].
  - simpl in Ht. by apply IH2.
  - injection Ht as -> <-. eauto.
Qed.

Lemma deriv_seq_lang c r1 r2 s :
  (∀ t, lang (deriv c r1) t ↔ lang r1 (c :: t)) →
  lang (RSeq (deriv c r1) r2) s → lang (RSeq r1 r2) (c :: s).
Proof.
  intros IH1 (s1 & s2 & -> & H1 & H2)%lang_seq_inv.
  apply IH1 in H1. exact (lang_seq _ _ (c :: s1) s2 H1 H2).
Qed.

Lemma deriv_lang c r s : lang (deriv c r) s ↔ lang r (c :: s).
Proof.
  revert s. induction r as [| |p|r1 IH1 r2 IH2|r1 IH1 r2 IH2|r IH];
    intros s; simpl.
  - split; inversion 1.
  - split; inversion 1.
  - destruct (p c) eqn:Hp; split.
    + inversion 1; subst. by constructor.
    + inversion 1; subst. constructor.
    + inversion 1.
    + inversion 1; subst. congruence.
  - split.
    + intros H. destruct (nullable r1) eqn:Hn;
        [|by apply deriv_seq_lang].
      apply lang_alt_inv in H as [H|H]; [by apply deriv_seq_lang|].
      apply nullable_lang in Hn.
      apply (lang_seq _ _ [] (c :: s) Hn). by apply IH2.
    + intros (s1 & s2 & Heq & H1 & H2)%lang_seq_inv.
      destruct s1 as [|c1 s1]; simpl in Heq.
      * subst s2. apply nullable_lang in H1. rewrite H1.
        apply lang_alt_r. by apply IH2.
      * injection Heq as <- ->.
        assert (lang (RSeq (deriv c r1) r2) (s1 ++ s2)) as Hseq.
        { constructor; [by apply IH1 | done]. }
        destruct (nullable r1); [by apply lang_alt_l | done].
  - split.
    + intros [H|H]%lang_alt_inv;
        [apply lang_alt_l; by apply IH1 | apply lang_alt_r; by apply IH2].
    + intros [H|H]%lang_alt_inv;
        [apply lang_alt_l; by apply IH1 | apply lang_alt_r; by apply IH2].
  - split.
    + intros (s1 & s2 & -> & H1 & H2)%lang_seq_inv.
      apply IH in H1. exact (lang_star_cons _ (c :: s1) s2 H1 H2).
    + intros H. apply lang_star_cons_inv in H as (s1 & s2 & -> & H1 & H2).
      constructor; [by apply IH | done].
Qed.

Lemma regex_test_lang r s : regex_test r s = true ↔ lang r s.
Proof.
  revert r. induction s as [|c s IH]; intros r; simpl.
  - apply nullable_lang.
  - rewrite IH. apply deriv_lang.
Qed.

Lemma lang_star_class p s :
  lang (RStar (RClass p)) s ↔ Forall (λ c, p c = true) s.
Proof.
  split.
  - intros H. remember (RStar (RClass p)) as r eqn:Hr.
    induction H as [| | | | | |r0 s1 s2 H1 _ H2 IH2]; try discriminate.
    + constructor.
    + injection Hr as ->. apply lang_class_inv in H1 as (c & -> & Hc).
      constructor; [done | by apply IH2].
  - induction 1 as [|c s Hc _ IH]; [constructor|].
    apply (lang_star_cons _ [c] s); [by constructor | done].
Qed.

Lemma lang_plus_class p s :
  lang (RPlus (RClass p)) s ↔ s ≠ [] ∧ Forall (λ c, p c = true) s.
Proof.
  unfold RPlus. split.
  - intros (s1 & s2 & -> & (c & -> & Hc)%lang_class_inv & H2)%lang_seq_inv.
    split; [done|]. constructor; [done | by apply lang_star_class].
  - intros [Hne Hall]. destruct Hall as [|c s Hc Hall]; [done|].
    apply (lang_seq _ _ [c] s); [by constructor | by apply lang_star_class].
Qed.

(** The strings of the email pattern: a local part, [@], a domain, a dot
    and a suffix, the three parts non-empty and free of white space and
    of [@]. *)
Lemma lang_emailRegex s :
  lang emailRegex s ↔
  ∃ a b c,
    s = a ++ 64%N :: b ++ 46%N :: c
    ∧ a ≠ [] ∧ b ≠ [] ∧ c ≠ []
    ∧ Forall (λ ch, not_space_at ch = true) a
    ∧ Forall (λ ch, not_space_at ch = true) b
    ∧ Forall (λ ch, not_space_at ch = true) c.
Proof.
  unfold emailRegex. split.
  - intros (a & t1 & -> & [Ha Ha']%lang_plus_class & H)%lang_seq_inv.
    apply lang_seq_inv in H
      as (x & t2 & -> & (c1 & -> & Hc1)%lang_class_inv & H).
    apply lang_seq_inv in H as (b & t3 & -> & [Hb Hb']%lang_plus_class & H).
    apply lang_seq_inv in H
      as (y & c & -> & (c2 & -> & Hc2)%lang_class_inv & [Hc Hc']%lang_plus_class).
    unfold is_char in Hc1, Hc2.
    apply N.eqb_eq in Hc1 as ->. apply N.eqb_eq in Hc2 as ->.
    exists a, b, c. done.
  - intros (a & b & c & -> & Ha & Hb & Hc & Ha' & Hb' & Hc').
    apply lang_seq; [by apply lang_plus_class|].
    apply (lang_seq _ _ [64%N]); [by constructor|].
    apply lang_seq; [by apply lang_plus_class|].
    apply (lang_seq _ _ [46%N]); [by constructor|].
    by apply lang_plus_class.
Qed.

Lemma strict_eq_str (v : JsVal) (s : jsstring) :
  strict_eq v (JStr s) = true ↔ v = JStr s.
Proof.
  destruct v; simpl; try (split; [discriminate | congruence]).
  rewrite bool_decide_eq_true. split; congruence.
Qed.




Lemma newUser_dom data fn ln em ph hash env :
  dom (newUser data fn ln em ph hash env) = user_fields.
Proof. by vm_compute. Qed.


Lemma array_findIndex_Some {A} (p : A → bool) (l : list A) (i : nat) :
  array_findIndex p l = Some i →
  ∃ x, l !! i = Some x ∧ p x = true.
Proof.
  revert i. induction l as [|y l IH]; intros i; simpl; [discriminate|].
  destruct (p y) eqn:Hy.
  - intros [= <-]. eauto.
  - destruct (array_findIndex p l) as [j|]; [|discriminate].
    intros [= <-]. apply (IH j). reflexivity.
Qed.

Lemma array_findIndex_is_Some {A} (p : A → bool) (l : list A) (x : A) :
  x ∈ l → p x = true → is_Some (array_findIndex p l).
Proof.
  intros Hx Hp. induction l as [|y l IH]; [inversion Hx|]. simpl.
  destruct (p y) eqn:Hy; [eauto|].
  apply elem_of_cons in Hx as [-> | Hx]; [congruence|].
  destruct (IH Hx) as [i ->]. simpl. eauto.
Qed.

Lemma array_find_Some {A} (p : A → bool) (l : list A) (x : A) :
  array_find p l = Some x → x ∈ l ∧ p x = true.
Proof.
  induction l as [|y l IH]; simpl; [discriminate|].
  destruct (p y) eqn:Hy.
  - intros [= <-]. split; [left | done].
  - intros H. destruct (IH H). split; [by right | done].
Qed.

Lemma array_find_None {A} (p : A → bool) (l : list A) :
  array_find p l = None ↔ ∀ x, x ∈ l → p x = false.
Proof.
  induction l as [|y l IH]; simpl.
  - split; [intros _ x Hx; inversion Hx | done].
  - destruct (p y) eqn:Hy.
    + split; [discriminate|]. intros H. rewrite (H y) in Hy; [done | left].
    + rewrite IH. split.
      * intros H x Hx. inversion Hx; subst; [done | by apply H].
      * intros H x Hx. apply H. by right.
Qed.

Lemma preferences_found data req_body i :
  truthy (prop req_body "userId") = true →
  array_findIndex
    (λ u, strict_eq_num (prop u "id") (parseInt (prop req_body "userId")))
    (users data) = Some i →
  ∃ u,
    users data !! i = Some u
    ∧ strict_eq_num (prop u "id") (parseInt (prop req_body "userId")) = true
    ∧ api_auth_preferences data req_body =
      Sent {| status := 200;
              body := <["success" := RJs (JBool true)]>
                      (<["message" := RJs (JStr (lit msg_updated))]>
                      (<["user" := RObj (set_preferences req_body u)]> ∅)) |}
           (Some {| users := <[i := set_preferences req_body u]> (users data);
                    nextId := nextId data |}).
Proof.
  intros Hid Hfind. unfold api_auth_preferences. rewrite Hid, Hfind. simpl.
  destruct (array_findIndex_Some _ _ _ Hfind) as (u & Hu & Hp).
  exists u. rewrite Hu. done.
Qed.

Lemma set_preferences_frame req_body u k :
  k ∉ preference_fields → set_preferences req_body u !! k = u !! k.
Proof.
  unfold preference_fields, set_preferences. intros Hk.
  rewrite !lookup_insert_ne; [done | set_solver..].
Qed.

(** C3.  When the preference route is called with a userId that is present
    and is the id of a stored record, it answers 200; in the record it
    finds, each of preferences, dietaryRestrictions and cuisineTypes
    becomes the supplied value when it is an array and the empty array
    otherwise, priceRange the supplied value or the empty string when it is
    absent or falsy, minRating the supplied value or 3 when it is absent or
    falsy, and hasPreferences true; the updated store is passed to
    [writeUsers]; the answer carries the whole updated record, the stored
    password hash included. *)
Theorem preferences_overwritten data req_body u0 :
  truthy (prop req_body "userId") = true →
  u0 ∈ users data →
  strict_eq_num (prop u0 "id") (parseInt (prop req_body "userId")) = true →
  ∃ i u u',
    users data !! i = Some u
    ∧ strict_eq_num (prop u "id") (parseInt (prop req_body "userId")) = true
    ∧ u' !! "preferences"
      = Some (if isArray (prop req_body "preferences")
              then prop req_body "preferences" else JArr [])
    ∧ u' !! "dietaryRestrictions"
      = Some (if isArray (prop req_body "dietaryRestrictions")
              then prop req_body "dietaryRestrictions" else JArr [])
    ∧ u' !! "cuisineTypes"
      = Some (if isArray (prop req_body "cuisineTypes")
              then prop req_body "cuisineTypes" else JArr [])
    ∧ u' !! "priceRange"
      = Some (if truthy (prop req_body "priceRange")
              then prop req_body "priceRange" else JStr [])
    ∧ u' !! "minRating"
      = Some (if truthy (prop req_body "minRating")
              then prop req_body "minRating" else JNum 3)
    ∧ u' !! "hasPreferences" = Some (JBool true)
    ∧ u' !! "password" = u !! "password"
    ∧ api_auth_preferences data req_body =
      Sent {| status := 200;
              body := <["success" := RJs (JBool true)]>
                      (<["message" := RJs (JStr (lit msg_updated))]>
                      (<["user" := RObj u']> ∅)) |}
           (Some {| users := <[i := u']> (users data);
                    nextId := nextId data |}).
Proof.
  intros Hid Hin Hmatch.
  destruct (array_findIndex_is_Some
              (λ u, strict_eq_num (prop u "id")
                      (parseInt (prop req_body "userId")))
              _ _ Hin Hmatch) as [i Hfind].
  destruct (preferences_found data req_body i Hid Hfind) as (u & Hu & Hp & Hr).
  exists i, u, (set_preferences req_body u).
  split; [done|]. split; [done|].
  unfold set_preferences at 1 2 3 4 5 6 7, js_or.
  repeat (split; [by simplify_map_eq|]).
  done.
Qed.

(** C9.  A successful call of the preference route changes, in the record
    it updates, the six properties preferences, dietaryRestrictions,
    cuisineTypes, priceRange, minRating and hasPreferences only: id,
    firstName, lastName, email, phone, password and createdAt, and any
    other property, keep their values; every other record of the store is
    as it was, and so are the number of records and [nextId]. *)
Theorem preferences_frame data req_body i u :
  truthy (prop req_body "userId") = true →
  array_findIndex
    (λ u, strict_eq_num (prop u "id") (parseInt (prop req_body "userId")))
    (users data) = Some i →
  users data !! i = Some u →
  ∃ r data' u',
    api_auth_preferences data req_body = Sent r (Some data')
    ∧ users data' !! i = Some u'
    ∧ (∀ k, k ∉ preference_fields → u' !! k = u !! k)
    ∧ u' !! "id" = u !! "id"
    ∧ u' !! "firstName" = u !! "firstName"
    ∧ u' !! "lastName" = u !! "lastName"
    ∧ u' !! "email" = u !! "email"
    ∧ u' !! "phone" = u !! "phone"
    ∧ u' !! "password" = u !! "password"
    ∧ u' !! "createdAt" = u !! "createdAt"
    ∧ (∀ j, j ≠ i → users data' !! j = users data !! j)
    ∧ length (users data') = length (users data)
    ∧ nextId data' = nextId data.
Proof.
  intros Hid Hfind Hu.
  destruct (preferences_found data req_body i Hid Hfind) as (u0 & Hu0 & _ & Hr).
  assert (u0 = u) as -> by congruence.
  eexists _, _, (set_preferences req_body u). split; [exact Hr|]. simpl.
  split.
  { apply list_lookup_insert_eq. by eapply lookup_lt_Some. }
  split; [intros k; apply set_preferences_frame|].
  repeat (split; [by apply set_preferences_frame|]).
  split; [intros j Hj; by apply list_lookup_insert_ne|].
  split; [apply length_insert | reflexivity].
Qed.

Lemma login_by_cases data req_body :
  api_auth_login compareSync data req_body =
  if negb (truthy (prop req_body "email"))
     || negb (truthy (prop req_body "password"))
  then failure 400 msg_missing_credentials
  else
    match array_find (λ u, strict_eq (prop u "email") (prop req_body "email"))
            (users data) with
    | None => failure 401 msg_invalid_credentials
    | Some user =>
      match compareSync (prop req_body "password") (prop user "password") with
      | None => Threw
      | Some false => failure 401 msg_invalid_credentials
      | Some true =>
        Sent {| status := 200;
                body := <["success" := RJs (JBool true)]>
                        (<["message" := RJs (JStr (lit msg_logged_in))]>
                        (<["user" := RObj (login_view user)]> ∅)) |} None
      end
    end.
Proof. reflexivity. Qed.


Lemma failure_has_no_property st msg r w k :
  failure st msg = Sent r w →
  k ≠ "success" → k ≠ "message" → ¬ has_property k r.
Proof.
  intros [= <- <-] Hs Hm [Htop | (k' & o & Hk' & _)]; simpl in *.
  - rewrite !lookup_insert_ne, lookup_empty in Htop by done.
    by destruct Htop.
  - rewrite !lookup_insert in Hk'. repeat case_decide; try done.
Qed.

Lemma user_body_has_property view k m y :
  k ≠ "success" → k ≠ "message" → k ≠ "user" →
  (m = <["user" := RObj view]> ∅
   ∨ ∃ x, m = <["message" := RJs x]> (<["user" := RObj view]> ∅)) →
  has_property k {| status := 200; body := <["success" := RJs y]> m |} →
  is_Some (view !! k).
Proof.
  intros Hs Hm Hu Hshape [Htop | (k' & o & Hk' & Ho)]; simpl in *.
  - destruct Hshape as [-> | (x & ->)];
      rewrite !lookup_insert_ne, lookup_empty in Htop by done;
      by destruct Htop.
  - destruct Hshape as [-> | (x & ->)];
      rewrite !lookup_insert in Hk'; repeat case_decide; try done;
      by injection Hk' as <-.
Qed.

Lemma login_view_lookup user k :
  k ≠ "id" → k ≠ "firstName" → k ≠ "lastName" → k ≠ "email" →
  k ≠ "hasPreferences" → login_view user !! k = None.
Proof.
  intros. unfold login_view. simpl.
  by rewrite !lookup_insert_ne, lookup_empty.
Qed.

Lemma user_fields_lookup (u : gmap string JsVal) k :
  dom u = user_fields → k ∉ user_fields → u !! k = None.
Proof. intros Hd Hk. apply not_elem_of_dom. by rewrite Hd. Qed.

(** C5.  No answer of the login route and no answer of the user route has
    a property named password or passwordHash, at the top or inside the
    user object it carries (for passwordHash on the user route: in a store
    whose records have the properties [newUser] gives them).  A successful
    login carries exactly the view id, firstName, lastName, email,
    hasPreferences of the record; a successful lookup carries the record
    with its password property removed and every other property kept. *)
Theorem responses_carry_no_password :
  (∀ data req_body r w,
     api_auth_login compareSync data req_body = Sent r w →
     ¬ has_property "password" r
     ∧ ¬ has_property "passwordHash" r
     ∧ (status r = 200 →
        ∃ user,
          user ∈ users data
          ∧ body r = <["success" := RJs (JBool true)]>
                     (<["message" := RJs (JStr (lit msg_logged_in))]>
                     (<["user" := RObj (login_view user)]> ∅))
          ∧ dom (login_view user)
            = {[ "id"; "firstName"; "lastName"; "email"; "hasPreferences" ]}
          ∧ login_view user !! "id" = Some (prop user "id")
          ∧ login_view user !! "firstName" = Some (prop user "firstName")
          ∧ login_view user !! "lastName" = Some (prop user "lastName")
          ∧ login_view user !! "email" = Some (prop user "email")))
  ∧ (∀ data id r w,
       api_users_id data id = Sent r w →
       ¬ has_property "password" r
       ∧ (Forall (λ u, dom u = user_fields) (users data) →
          ¬ has_property "passwordHash" r)
       ∧ (status r = 200 →
          ∃ user,
            user ∈ users data
            ∧ body r = <["success" := RJs (JBool true)]>
                       (<["user" := RObj (delete "password" user)]> ∅)
            ∧ delete "password" user !! "password" = None
            ∧ ∀ k, k ≠ "password" →
                   delete "password" user !! k = user !! k)).
Proof.
  split.
  - intros data req_body r w. rewrite login_by_cases.
    destruct (_ || _).
    { intros H. split; [|split].
      - by eapply failure_has_no_property.
      - by eapply failure_has_no_property.
      - injection H as <- <-. done. }
    destruct (array_find _ _) as [user|] eqn:Hfind.
    2:{ intros H. split; [|split].
        - by eapply failure_has_no_property.
        - by eapply failure_has_no_property.
        - injection H as <- <-. done. }
    destruct (compareSync _ _) as [[|]|]; [| |discriminate].
    2:{ intros H. split; [|split].
        - by eapply failure_has_no_property.
        - by eapply failure_has_no_property.
        - injection H as <- <-. done. }
    intros [= <- <-]. split; [|split].
    + intros H. eapply user_body_has_property in H; [|done..|right; eauto].
      rewrite login_view_lookup in H by done. by destruct H.
    + intros H. eapply user_body_has_property in H; [|done..|right; eauto].
      rewrite login_view_lookup in H by done. by destruct H.
    + intros _. exists user. split; [by eapply array_find_Some|].
      split; [done|]. split; [by vm_compute|]. done.
  - intros data id r w. unfold api_users_id.
    destruct (array_find _ _) as [user|] eqn:Hfind.
    2:{ intros H. split; [|split].
        - by eapply failure_has_no_property.
        - intros _. by eapply failure_has_no_property.
        - injection H as <- <-. done. }
    intros [= <- <-]. apply array_find_Some in Hfind as [Hin _].
    split; [|split].
    + intros H. eapply user_body_has_property in H; [|done..|left; eauto].
      rewrite lookup_delete_eq in H. by destruct H.
    + intros Hshape H.
      eapply user_body_has_property in H; [|done..|left; eauto].
      rewrite lookup_delete_ne in H by done.
      rewrite Forall_forall in Hshape.
      rewrite (user_fields_lookup user) in H; [by destruct H | by apply Hshape |].
      by vm_compute.
    + intros _. exists user. split; [done|]. split; [done|].
      split; [apply lookup_delete_eq|]. intros k Hk. by apply lookup_delete_ne.
Qed.


Lemma newUser_email data fn ln em ph hash env :
  prop (newUser data fn ln em ph hash env) "email" = em.
Proof. reflexivity. Qed.

Lemma filter_none {A} (p : A → bool) (l : list A) :
  existsb p l = false → List.filter p l = [].
Proof.
  induction l as [|x l IH]; simpl; [done|].
  destruct (p x); simpl; [done | exact IH].
Qed.


Lemma set_preferences_id req_body u :
  prop (set_preferences req_body u) "id" = prop u "id".
Proof. unfold prop. by rewrite set_preferences_frame. Qed.

(** The invariant of the store: every record has a numeric id below
    [nextId], and no two records have the same id. *)
Lemma store_invariant_init :
  (∀ u, u ∈ users initialData →
        ∃ i, u !! "id" = Some (JNum i) ∧ i < nextId initialData)
  ∧ NoDup ((λ u, prop u "id") <$> users initialData).
Proof. split; [intros u Hu; inversion Hu | constructor]. Qed.

Lemma store_invariant_step data rq :
  (∀ u, u ∈ users data → ∃ i, u !! "id" = Some (JNum i) ∧ i < nextId data) →
  NoDup ((λ u, prop u "id") <$> users data) →
  (∀ u, u ∈ users (store_after data (handle hashSync compareSync data rq)) →
        ∃ i, u !! "id" = Some (JNum i)
             ∧ i < nextId (store_after data (handle hashSync compareSync data rq)))
  ∧ NoDup ((λ u, prop u "id")
             <$> users (store_after data (handle hashSync compareSync data rq))).
Proof.
  intros Hlt Hnd. destruct rq as [b env | b | b | id]; simpl.
  - rewrite signup_by_rules.
    destruct (first_failing_rule data b); [done|].
    destruct (hashSync _ _) as [hash|]; [|done]. simpl. split.
    + intros u [Hu | Hu]%elem_of_app.
      * destruct (Hlt u Hu) as (i & Hi & Hb). exists i. split; [done | lia].
      * apply list_elem_of_singleton in Hu as ->.
        exists (nextId data). split; [reflexivity | lia].
    + rewrite fmap_app. apply NoDup_app. split; [done|]. split.
      * intros v Hv Hv'. simpl in Hv'. apply list_elem_of_singleton in Hv'.
        apply list_elem_of_fmap in Hv as (u & -> & Hu).
        destruct (Hlt u Hu) as (i & Hi & Hb).
        unfold prop in Hv'. rewrite Hi in Hv'. simpl in Hv'.
        change (JNum i = JNum (nextId data)) in Hv'.
        injection Hv' as ->. lia.
      * apply NoDup_singleton.
  - rewrite login_by_cases. destruct (_ || _); [done|].
    destruct (array_find _ _); [|done].
    by destruct (compareSync _ _) as [[|]|].
  - unfold api_auth_preferences.
    destruct (negb _); [done|].
    destruct (array_findIndex _ _) as [i|]; [|done].
    destruct (users data !! i) as [u|] eqn:Hu; [|done]. simpl.
    assert ((λ u, prop u "id") <$> <[i := set_preferences b u]> (users data)
            = (λ u, prop u "id") <$> users data) as Hids.
    { rewrite list_fmap_insert, set_preferences_id.
      apply list_insert_id. by rewrite list_lookup_fmap, Hu. }
    split; [|by rewrite Hids].
    intros v Hv. apply list_elem_of_lookup in Hv as (j & Hj).
    destruct (decide (i = j)) as [<- | Hne].
    + rewrite list_lookup_insert_eq in Hj by (by eapply lookup_lt_Some).
      injection Hj as <-.
      destruct (Hlt u) as (k & Hk & Hb); [by eapply list_elem_of_lookup_2|].
      exists k. by rewrite set_preferences_frame.
    + rewrite list_lookup_insert_ne in Hj by done.
      apply Hlt. by eapply list_elem_of_lookup_2.
  - unfold api_users_id. by destruct (array_find _ _).
Qed.

(** C7.  In every store reachable from the empty store with [nextId] 1 by
    signups, logins, preference updates and lookups, every record has a
    numeric id strictly below [nextId], and the ids of the records are
    pairwise different. *)
Theorem nextId_above_every_id data :
  reachable hashSync compareSync data →
  (∀ u, u ∈ users data → ∃ i, u !! "id" = Some (JNum i) ∧ i < nextId data)
  ∧ NoDup ((λ u, prop u "id") <$> users data).
Proof.
  induction 1 as [|data rq _ [Hlt Hnd]].
  - exact store_invariant_init.
  - by apply store_invariant_step.
Qed.

Lemma set_preferences_dom req_body u :
  dom u = user_fields → dom (set_preferences req_body u) = user_fields.
Proof.
  intros Hd. unfold set_preferences. rewrite !dom_insert_L, Hd.
  by vm_compute.
Qed.

(** Every record of a reachable store has the properties of [newUser]
    and no other. *)
Lemma reachable_records_shape data :
  reachable hashSync compareSync data →
  Forall (λ u, dom u = user_fields) (users data).
Proof.
  induction 1 as [|data rq _ IH]; [constructor|].
  destruct rq as [b env | b | b | id]; simpl.
  - rewrite signup_by_rules.
    destruct (first_failing_rule data b); [done|].
    destruct (hashSync _ _) as [hash|]; [|done]. simpl.
    apply Forall_app. split; [done|].
    constructor; [apply newUser_dom | constructor].
  - rewrite login_by_cases. destruct (_ || _); [done|].
    destruct (array_find _ _); [|done].
    by destruct (compareSync _ _) as [[|]|].
  - unfold api_auth_preferences.
    destruct (negb _); [done|].
    destruct (array_findIndex _ _) as [i|]; [|done].
    destruct (users data !! i) as [u|] eqn:Hu; [|done]. simpl.
    apply Forall_insert; [done|].
    apply set_preferences_dom.
    rewrite Forall_forall in IH. apply IH. by eapply list_elem_of_lookup_2.
  - unfold api_users_id. by destruct (array_find _ _).
Qed.

(** Serving a request runs the handler on the document [readUsers]
    returns, and changes the file only through the [writeUsers] of the
    document the handler wrote. *)
Lemma serve_reads_and_writes fs rq :
  let data := fst (readUsers JSON_parse fs) in
  let o := handle hashSync compareSync data rq in
  serve JSON_parse JSON_stringify hashSync compareSync fs rq
  = (o, match outcome_written o with
        | Some data' => writeUsers JSON_stringify fs data'
        | None => fs
        end).
Proof.
  unfold serve, readUsers. simpl.
  destruct (readFileSync fs) as [text|]; [destruct (JSON_parse text)|];
    simpl; by destruct (handle _ _ _ _) as [r [d|]|].
Qed.

(** C8 (as the code has it).  [readUsers] returns the parsed document when
    the file is there and parses; when the file is missing or does not
    parse it returns the empty store [{users: [], nextId: 1}] in memory,
    raises nothing and writes nothing.  The empty store is written to a
    missing file by [initializeUsersFile], which the server calls once when
    it starts, and which leaves a file that exists as it is. *)
Theorem readUsers_initialize_behaviour :
  (∀ fs text d,
     content fs = Some text → JSON_parse text = Some d →
     readUsers JSON_parse fs = (d, fs)
     ∧ initializeUsersFile JSON_stringify fs = Some fs)
  ∧ (∀ fs,
       content fs = None →
       readUsers JSON_parse fs = ({| users := []; nextId := 1 |}, fs))
  ∧ (∀ fs,
       content fs = None → writable fs = true →
       initializeUsersFile JSON_stringify fs
       = Some {| content := Some (JSON_stringify {| users := []; nextId := 1 |});
                 writable := true |})
  ∧ (∀ fs text,
       content fs = Some text → JSON_parse text = None →
       readUsers JSON_parse fs = ({| users := []; nextId := 1 |}, fs)
       ∧ initializeUsersFile JSON_stringify fs = Some fs).
Proof.
  unfold readUsers, initializeUsersFile, readFileSync, existsSync,
    writeFileSync.
  split; [|split; [|split]].
  - intros fs text d -> ->. split; reflexivity.
  - by intros fs ->.
  - by intros fs -> ->.
  - intros fs text -> ->. split; reflexivity.
Qed.

End Properties.

(** C8, as the specification states it, fails: reading a missing file
    gives the empty store and the file is still missing afterwards. *)
Lemma readUsers_absent_persists_nothing :
  fst (readUsers example_JSON_parse absent_file) = initialData
  ∧ content (snd (readUsers example_JSON_parse absent_file)) = None.
Proof. split; reflexivity. Qed.

Lemma readUsers_initialize_examples :
  readUsers example_JSON_parse
    {| content := Some (lit "{}"); writable := true |}
  = (initialData, {| content := Some (lit "{}"); writable := true |})
  ∧ readUsers example_JSON_parse absent_file = (initialData, absent_file)
  ∧ initializeUsersFile example_JSON_stringify absent_file
    = Some {| content := Some (lit "{}"); writable := true |}
  ∧ readUsers example_JSON_parse broken_file = (initialData, broken_file)
  ∧ initializeUsersFile example_JSON_stringify broken_file = Some broken_file.
Proof.
  destruct (readUsers_initialize_behaviour example_JSON_parse
              example_JSON_stringify) as (Hok & Habsent & Hinit & Hbroken).
  split.
  { apply (Hok {| content := Some (lit "{}"); writable := true |} (lit "{}")
             initialData); reflexivity. }
  split; [apply Habsent; reflexivity|].
  split; [apply (Hinit absent_file); reflexivity|].
  apply (Hbroken broken_file (lit "oops")); reflexivity.
Defined.

Lemma ana_preferences_overwritten :
  ∃ u u',
    users ana_store = [u]
    ∧ u' !! "preferences" = Some (JArr [JStr (lit "vegan")])
    ∧ u' !! "dietaryRestrictions" = Some (JArr [JStr (lit "gluten-free")])
    ∧ u' !! "cuisineTypes" = Some (JArr [JStr (lit "italian")])
    ∧ u' !! "priceRange" = Some (JStr (lit "$$"))
    ∧ u' !! "minRating" = Some (JNum 4)
    ∧ u' !! "hasPreferences" = Some (JBool true)
    ∧ u' !! "password" = u !! "password"
    ∧ outcome_written (api_auth_preferences ana_store ana_preferences)
      = Some {| users := [u']; nextId := 2 |}.
Proof.
  assert (∃ u0, users ana_store = [u0]) as [u0 Hstore] by (by eexists).
  destruct (preferences_overwritten ana_store ana_preferences u0 eq_refl)
    as (i & u & u' & Hu & _ & H1 & H2 & H3 & H4 & H5 & H6 & H7 & Hr).
  { rewrite Hstore. left. }
  { injection Hstore as <-. reflexivity. }
  rewrite Hstore in Hu, Hr.
  destruct i as [|i]; [|destruct i; discriminate].
  injection Hu as ->.
  exists u, u'. split; [exact Hstore|].
  split; [exact H1|]. split; [exact H2|]. split; [exact H3|].
  split; [exact H4|]. split; [exact H5|]. split; [exact H6|].
  split; [exact H7|]. rewrite Hr. reflexivity.
Defined.

Lemma ana_preferences_frame :
  ∃ u r data' u',
    users ana_store !! 0%nat = Some u
    ∧ api_auth_preferences ana_store ana_preferences = Sent r (Some data')
    ∧ users data' !! 0%nat = Some u'
    ∧ u' !! "id" = Some (JNum 1)
    ∧ u' !! "email" = Some (JStr (lit "ana@x.com"))
    ∧ u' !! "password" = u !! "password"
    ∧ u' !! "createdAt" = u !! "createdAt"
    ∧ length (users data') = 1%nat
    ∧ nextId data' = 2.
Proof.
  destruct (preferences_frame ana_store ana_preferences 0 _ eq_refl eq_refl
              eq_refl)
    as (r & data' & u' & Hr & Hu' & _ & Hid & _ & _ & Hem & _ & Hpw & Hc & _
        & Hlen & Hn).
  eexists _, r, data', u'. split; [reflexivity|].
  split; [exact Hr|]. split; [exact Hu'|].
  split; [exact Hid|]. split; [exact Hem|]. split; [exact Hpw|].
  split; [exact Hc|]. split; [exact Hlen | exact Hn].
Defined.


Lemma ana_responses_carry_no_password :
  (∃ r w,
     api_auth_login example_compareSync ana_store
       (login_body "ana@x.com" "pass1234") = Sent r w
     ∧ status r = 200
     ∧ ¬ has_property "password" r ∧ ¬ has_property "passwordHash" r)
  ∧ (∃ r w,
       api_users_id ana_store (lit "1") = Sent r w
       ∧ status r = 200
       ∧ ¬ has_property "password" r ∧ ¬ has_property "passwordHash" r).
Proof.
  destruct (responses_carry_no_password example_compareSync) as [Hlogin Hget].
  split.
  - eexists _, _. split; [reflexivity|]. split; [reflexivity|].
    destruct (Hlogin ana_store (login_body "ana@x.com" "pass1234") _ _ eq_refl)
      as (H1 & H2 & _).
    by split.
  - eexists _, _. split; [reflexivity|]. split; [reflexivity|].
    destruct (Hget ana_store (lit "1") _ _ eq_refl) as (H1 & H2 & _).
    split; [exact H1|]. apply H2.
    repeat constructor.
Defined.


Lemma ana_store_reachable :
  reachable example_hashSync example_compareSync ana_store.
Proof.
  apply (reachable_step example_hashSync example_compareSync initialData
           (ana_request 0)).
  apply reachable_init.
Qed.

Lemma ana_store_ids :
  reachable example_hashSync example_compareSync ana_store
  ∧ Forall (λ u, ∃ i, u !! "id" = Some (JNum i) ∧ i < nextId ana_store)
      (users ana_store)
  ∧ NoDup ((λ u, prop u "id") <$> users ana_store).
Proof.
  split; [exact ana_store_reachable|].
  rewrite Forall_forall.
  apply (nextId_above_every_id example_hashSync example_compareSync ana_store).
  exact ana_store_reachable.
Defined.


(** The scenario of the specification, run with the stand-in for bcrypt:
    Ana signs up on the empty store, logs in, sets her preferences and is
    looked up. *)
Lemma ana_scenario :
  let run := λ data (n : nat),
    handle example_hashSync example_compareSync data (ana_request n) in
  let s1 := store_after initialData (run initialData 0%nat) in
  let s3 := store_after s1 (run s1 2%nat) in
  outcome_status (run initialData 0%nat) = Some 201
  ∧ (∃ r w, run initialData 0%nat = Sent r w
            ∧ body r !! "userId" = Some (RJs (JNum 1)))
  ∧ (∃ r v, run s1 1%nat = Sent r None ∧ status r = 200
            ∧ body r !! "user" = Some (RObj v)
            ∧ v !! "hasPreferences" = Some (JBool false))
  ∧ (∃ r v, run s1 2%nat = Sent r (Some s3) ∧ status r = 200
            ∧ body r !! "user" = Some (RObj v)
            ∧ v !! "hasPreferences" = Some (JBool true))
  ∧ (∃ r v, run s3 3%nat = Sent r None ∧ status r = 200
            ∧ body r !! "user" = Some (RObj v)
            ∧ v !! "preferences" = Some (JArr [JStr (lit "vegan")])
            ∧ v !! "dietaryRestrictions" = Some (JArr [JStr (lit "gluten-free")])
            ∧ v !! "cuisineTypes" = Some (JArr [JStr (lit "italian")])
            ∧ v !! "priceRange" = Some (JStr (lit "$$"))
            ∧ v !! "minRating" = Some (JNum 4)
            ∧ v !! "hasPreferences" = Some (JBool true)
            ∧ v !! "password" = None).
Proof.
  cbv zeta. split; [by vm_compute|].
  split; [eexists _, _; split; [reflexivity | by vm_compute]|].
  split; [eexists _, _; split; [by vm_compute|]; repeat split; by vm_compute|].
  split; [eexists _, _; split; [by vm_compute|]; repeat split; by vm_compute|].
  eexists _, _; split; [by vm_compute|]; repeat split; by vm_compute.
Qed.

Example validateEmail_examples :
  validateEmail (JStr (lit "ana@x.com")) = true
  ∧ validateEmail (JStr (lit "not-an-email")) = false
  ∧ validateEmail (JStr (lit "a b@x.com")) = false
  ∧ validateEmail (JStr (lit "a@b@x.com")) = false
  ∧ validateEmail (JStr (lit "ana@x.")) = false.
Proof. by vm_compute. Qed.

Example parseInt_examples :
  parseInt (JNum 1) = Some 1
  ∧ parseInt (JStr (lit "1")) = Some 1
  ∧ parseInt (JStr (lit " 42abc")) = Some 42
  ∧ parseInt (JStr (lit "-7")) = Some (-7)
  ∧ parseInt (JStr (lit "0x1f")) = Some 31
  ∧ parseInt (JStr (lit "abc")) = None
  ∧ parseInt (JStr (lit "")) = None.
Proof. by vm_compute. Qed.

Example password_length_boundary :
  password_rule (JStr (lit "pass123")) = false
  ∧ password_rule (JStr (lit "pass1234")) = true.
Proof. by vm_compute. Qed.

(** * Further properties of the routes *)

(** ** Numbers as ids: [parseInt] reads back what [toString] writes *)

Lemma read_digits_uint (acc : Z) (d : Decimal.uint) :
  read_digits 10 (Some acc) (ascii_codes (NilEmpty.string_of_uint d))
  = Some (uint_value acc d).
Proof.
  revert acc. induction d as [|d IH|d IH|d IH|d IH|d IH|d IH|d IH|d IH|d IH|d IH];
    intros acc; [reflexivity|..];
    cbn -[Z.mul Z.add]; exact (IH _).
Qed.

Lemma uint_value_pos (d : Decimal.uint) (p : positive) :
  uint_value (Z.pos p) d = Z.pos (Pos.of_uint_acc d p).
Proof.
  revert p. induction d as [|d IH|d IH|d IH|d IH|d IH|d IH|d IH|d IH|d IH|d IH];
    intros p; [reflexivity|..]; simpl uint_value; simpl Pos.of_uint_acc;
    rewrite <- IH; f_equal; lia.
Qed.

Lemma uint_value_0 (d : Decimal.uint) :
  uint_value 0 d = Z.of_N (Pos.of_uint d).
Proof.
  induction d as [|d IH|d IH|d IH|d IH|d IH|d IH|d IH|d IH|d IH|d IH];
    [reflexivity | exact IH | ..];
    simpl uint_value; simpl Pos.of_uint; exact (uint_value_pos d _).
Qed.

Lemma uint_value_to_uint (p : positive) :
  uint_value 0 (Pos.to_uint p) = Z.pos p.
Proof. by rewrite uint_value_0, DecimalPos.Unsigned.of_to. Qed.

Lemma string_of_uint_codes (d : Decimal.uint) :
  d ≠ Decimal.Nil →
  ∃ c k rest,
    ascii_codes (NilEmpty.string_of_uint d) = c :: rest
    ∧ digit_value 10 c = Some k
    ∧ is_space c = false
    ∧ c ≠ 64%N
    ∧ strip_sign (c :: rest) = (1, c :: rest)
    ∧ strip_hex_prefix (c :: rest) = (10%N, c :: rest)
    ∧ read_digits 10 (Some k) rest = Some (uint_value 0 d).
Proof.
  intros Hd.
  destruct d as [|d|d|d|d|d|d|d|d|d|d]; [done|..];
    (eexists _, _, (ascii_codes (NilEmpty.string_of_uint d));
     split; [reflexivity|]; split; [reflexivity|]; split; [reflexivity|];
     split; [done|]; split; [reflexivity|];
     split; [|exact (read_digits_uint _ d)]).
  all: try reflexivity.
  destruct d; reflexivity.
Qed.

Lemma parseInt_digits (d : Decimal.uint) :
  d ≠ Decimal.Nil →
  parseInt (JStr (ascii_codes (NilEmpty.string_of_uint d)))
  = Some (uint_value 0 d)
  ∧ parseInt (JStr (45%N :: ascii_codes (NilEmpty.string_of_uint d)))
    = Some (- uint_value 0 d).
Proof.
  intros Hd.
  destruct (string_of_uint_codes d Hd)
    as (c & k & rest & -> & Hk & Hsp & _ & Hsign & Hhex & Hread).
  unfold parseInt. cbn [to_string skip_space]. rewrite Hsp.
  change (is_space 45) with false. cbn iota.
  change (strip_sign (45%N :: c :: rest)) with (-1, c :: rest).
  rewrite Hsign, Hhex. cbn [read_digits]. rewrite Hk.
  change (default 0 None * Z.of_N 10 + k) with k. rewrite Hread.
  split; [f_equal; lia | f_equal; lia].
Qed.

Lemma num_to_string_cases (n : Z) :
  n = 0 ∧ num_to_string n = [48%N]
  ∨ (∃ p, n = Z.pos p
          ∧ num_to_string n
            = ascii_codes (NilEmpty.string_of_uint (Pos.to_uint p)))
  ∨ (∃ p, n = Z.neg p
          ∧ num_to_string n
            = 45%N :: ascii_codes (NilEmpty.string_of_uint (Pos.to_uint p))).
Proof.
  destruct n as [|p|p]; [left; done | right; left | right; right];
    exists p; (split; [done|]); unfold num_to_string; simpl;
    pose proof (DecimalPos.Unsigned.to_uint_nonnil p) as Hp;
    by destruct (Pos.to_uint p).
Qed.

(** [parseInt] reads the decimal text of a number back as the number. *)
Lemma parseInt_num (n : Z) :
  parseInt (JNum n) = Some n ∧ parseInt (JStr (num_to_string n)) = Some n.
Proof.
  assert (parseInt (JStr (num_to_string n)) = Some n) as H; [|by split].
  destruct (num_to_string_cases n)
    as [[-> ->] | [(p & -> & ->) | (p & -> & ->)]]; [reflexivity|..];
    pose proof (DecimalPos.Unsigned.to_uint_nonnil p) as Hp;
    destruct (parseInt_digits _ Hp) as [H1 H2];
    rewrite ?H1, ?H2, uint_value_to_uint; reflexivity.
Qed.

Section FurtherProperties.

Variable hashSync : JsVal → jsstring → option jsstring.
Variable compareSync : JsVal → JsVal → option bool.
Variable JSON_parse : jsstring → option Store.
Variable JSON_stringify : Store → jsstring.

(** ** What one request does to the store *)

Lemma step_cases data rq :
  store_after data (handle hashSync compareSync data rq) = data
  ∨ (∃ b env hash,
       rq = Signup b env
       ∧ first_failing_rule data b = None
       ∧ hashSync (prop b "password") (salt env) = Some hash
       ∧ store_after data (handle hashSync compareSync data rq)
         = {| users := users data ++
                [newUser data (prop b "firstName") (prop b "lastName")
                   (prop b "email") (prop b "phone") hash env];
              nextId := nextId data + 1 |})
  ∨ (∃ b i u,
       rq = Preferences b
       ∧ users data !! i = Some u
       ∧ store_after data (handle hashSync compareSync data rq)
         = {| users := <[i := set_preferences b u]> (users data);
              nextId := nextId data |}).
Proof.
  destruct rq as [b env | b | b | id]; simpl.
  - rewrite signup_by_rules.
    destruct (first_failing_rule data b) eqn:Hr; [by left|].
    destruct (hashSync _ _) as [hash|] eqn:Hh; [|by left].
    right; left. by exists b, env, hash.
  - left. rewrite login_by_cases. destruct (_ || _); [done|].
    destruct (array_find _ _); [|done].
    by destruct (compareSync _ _) as [[|]|].
  - unfold api_auth_preferences.
    destruct (negb _); [by left|].
    destruct (array_findIndex _ _) as [i|]; [|by left].
    destruct (users data !! i) as [u|] eqn:Hu; [|by left].
    right; right. by exists b, i, u.
  - left. unfold api_users_id. by destruct (array_find _ _).
Qed.

Lemma reachable_run (rqs : list Request) data :
  reachable hashSync compareSync data →
  reachable hashSync compareSync (run_requests hashSync compareSync data rqs).
Proof.
  revert data. induction rqs as [|rq rqs IH]; intros data H; simpl; [done|].
  apply IH. by constructor.
Qed.

(** ** Ids count the registrations *)

Lemma consecutive_ids_step data rq :
  nextId data = Z.of_nat (length (users data)) + 1 →
  (∀ j u, users data !! j = Some u → u !! "id" = Some (JNum (Z.of_nat j + 1))) →
  let data' := store_after data (handle hashSync compareSync data rq) in
  nextId data' = Z.of_nat (length (users data')) + 1
  ∧ ∀ j u, users data' !! j = Some u → u !! "id" = Some (JNum (Z.of_nat j + 1)).
Proof.
  intros Hn Hid.
  destruct (step_cases data rq)
    as [-> | [(b & env & hash & _ & _ & _ & ->) | (b & i & u & _ & Hu & ->)]];
    simpl; [done|..].
  - split; [rewrite length_app; simpl; lia|].
    intros j v [Hj | [Hj Hv]]%lookup_app_Some; [by apply Hid|].
    apply list_lookup_singleton_Some in Hv as [Hj0 <-].
    replace (Z.of_nat j + 1) with (nextId data) by lia. reflexivity.
  - split; [by rewrite length_insert|].
    intros j v Hj. destruct (decide (i = j)) as [<- | Hne].
    + rewrite list_lookup_insert_eq in Hj by (by eapply lookup_lt_Some).
      injection Hj as <-. rewrite set_preferences_frame by done. by apply Hid.
    + rewrite list_lookup_insert_ne in Hj by done. by apply Hid.
Qed.

Lemma consecutive_ids_reachable data :
  reachable hashSync compareSync data →
  nextId data = Z.of_nat (length (users data)) + 1
  ∧ ∀ j u, users data !! j = Some u → u !! "id" = Some (JNum (Z.of_nat j + 1)).
Proof.
  induction 1 as [|data rq _ [Hn Hid]].
  - split; [reflexivity | intros j u Hj; inversion Hj].
  - by apply consecutive_ids_step.
Qed.

(** X1.  In every store reachable from the empty one, [nextId] is the
    number of records plus one and the record at position [j] (from 0) has
    the id [j + 1]: ids are handed out as 1, 2, 3, ... in the order of the
    signups, and a record never moves. *)
Theorem ids_count_registrations data :
  reachable hashSync compareSync data →
  nextId data = Z.of_nat (length (users data)) + 1
  ∧ (∀ j u, users data !! j = Some u → u !! "id" = Some (JNum (Z.of_nat j + 1)))
  ∧ (λ u, prop u "id") <$> users data
    = (λ j, JNum (Z.of_nat j + 1)) <$> seq 0 (length (users data)).
Proof.
  intros [Hn Hid]%consecutive_ids_reachable. split; [done|]. split; [done|].
  apply list_eq. intros j. rewrite !list_lookup_fmap.
  destruct (users data !! j) as [u|] eqn:Hu; simpl.
  - rewrite lookup_seq_lt by (by eapply lookup_lt_Some). simpl.
    unfold prop. by rewrite (Hid j u Hu).
  - rewrite lookup_seq_ge; [done|]. by apply lookup_ge_None.
Qed.

Lemma find_by_id (l : list (gmap string JsVal)) (k n : Z) :
  (∀ j u, l !! j = Some u → u !! "id" = Some (JNum (k + Z.of_nat j))) →
  array_find (λ u, strict_eq_num (prop u "id") (Some n)) l
  = (if bool_decide (k ≤ n < k + Z.of_nat (length l))
     then l !! Z.to_nat (n - k) else None)
  ∧ array_findIndex (λ u, strict_eq_num (prop u "id") (Some n)) l
    = (if bool_decide (k ≤ n < k + Z.of_nat (length l))
       then Some (Z.to_nat (n - k)) else None).
Proof.
  revert k. induction l as [|x l IH]; intros k Hid.
  { simpl. rewrite bool_decide_false by lia. done. }
  assert (prop x "id" = JNum k) as Hx.
  { unfold prop. rewrite (Hid 0%nat x eq_refl). simpl. f_equal. lia. }
  destruct (IH (k + 1)) as [IH1 IH2].
  { intros j u Hj. rewrite (Hid (S j) u Hj). do 2 f_equal. lia. }
  cbn [array_find array_findIndex]. rewrite Hx. cbn [strict_eq_num].
  destruct (Z.eqb_spec k n) as [-> | Hne].
  - rewrite bool_decide_true by (simpl; lia).
    replace (n - n) with 0 by lia. done.
  - rewrite IH1, IH2. cbn [length].
    destruct (decide (k ≤ n < k + Z.of_nat (S (length l)))) as [Hin | Hout].
    + rewrite !bool_decide_true by lia.
      replace (Z.to_nat (n - k)) with (S (Z.to_nat (n - (k + 1)))) by lia.
      done.
    + rewrite !bool_decide_false by lia. done.
Qed.

Lemma strict_eq_num_nan (v : JsVal) : strict_eq_num v None = false.
Proof. by destruct v. Qed.

Lemma find_by_nan (l : list (gmap string JsVal)) :
  array_find (λ u, strict_eq_num (prop u "id") None) l = None
  ∧ array_findIndex (λ u, strict_eq_num (prop u "id") None) l = None.
Proof.
  induction l as [|x l [IH1 IH2]]; [done|]. simpl.
  by rewrite strict_eq_num_nan, IH1, IH2.
Qed.

(** X2.  In a reachable store, the user route called with the decimal text
    of [n] answers 200 with the record of id [n], its password property
    removed, when [1 <= n < nextId]; it answers 404 for every other [n],
    and for every text [parseInt] reads no number from. *)
Theorem user_lookup_by_id data :
  reachable hashSync compareSync data →
  (∀ n, 1 ≤ n < nextId data →
        ∃ u, users data !! Z.to_nat (n - 1) = Some u
             ∧ u !! "id" = Some (JNum n)
             ∧ api_users_id data (num_to_string n)
               = Sent {| status := 200;
                         body := <["success" := RJs (JBool true)]>
                                 (<["user" := RObj (delete "password" u)]> ∅) |}
                      None)
  ∧ (∀ n, ¬ (1 ≤ n < nextId data) →
          api_users_id data (num_to_string n) = failure 404 msg_not_found)
  ∧ (∀ id, parseInt (JStr id) = None →
           api_users_id data id = failure 404 msg_not_found).
Proof.
  intros [Hn Hid]%consecutive_ids_reachable.
  assert (∀ n, array_find (λ u, strict_eq_num (prop u "id") (Some n))
                 (users data)
               = if bool_decide (1 ≤ n < nextId data)
                 then users data !! Z.to_nat (n - 1) else None) as Hfind.
  { intros n. destruct (find_by_id (users data) 1 n) as [-> _].
    - intros j u Hj. rewrite (Hid j u Hj). do 2 f_equal. lia.
    - by rewrite Hn, (Z.add_comm 1). }
  split; [|split].
  - intros n Hin.
    destruct (users data !! Z.to_nat (n - 1)) as [u|] eqn:Hu.
    2:{ apply lookup_ge_None in Hu. lia. }
    exists u. split; [done|].
    split; [rewrite (Hid _ u Hu); do 2 f_equal; lia|].
    unfold api_users_id. destruct (parseInt_num n) as [_ ->].
    by rewrite Hfind, bool_decide_true, Hu.
  - intros n Hout. unfold api_users_id. destruct (parseInt_num n) as [_ ->].
    by rewrite Hfind, bool_decide_false.
  - intros id Hnan. unfold api_users_id. rewrite Hnan.
    by destruct (find_by_nan (users data)) as [-> _].
Qed.


Lemma array_find_app_fresh {A} (p : A → bool) (l : list A) (x : A) :
  existsb p l = false → p x = true → array_find p (l ++ [x]) = Some x.
Proof.
  intros Hl Hx. induction l as [|y l IH]; simpl in *; [by rewrite Hx|].
  apply orb_false_iff in Hl as [-> Hl]. by apply IH.
Qed.

Lemma passed_rules data req_body :
  first_failing_rule data req_body = None →
  name_rule (prop req_body "firstName") (prop req_body "lastName") = true
  ∧ email_rule (prop req_body "email") = true
  ∧ password_rule (prop req_body "password") = true
  ∧ confirm_rule (prop req_body "password") (prop req_body "confirmPassword")
    = true
  ∧ fresh_rule data (prop req_body "email") = true.
Proof.
  unfold first_failing_rule.
  destruct (name_rule _ _); [|done]. destruct (email_rule _); [|done].
  destruct (password_rule _); [|done]. destruct (confirm_rule _ _); [|done].
  by destruct (fresh_rule _ _).
Qed.

Lemma signup_written data req_body env r data' :
  api_auth_signup hashSync data req_body env = Sent r (Some data') →
  ∃ hash,
    first_failing_rule data req_body = None
    ∧ hashSync (prop req_body "password") (salt env) = Some hash
    ∧ data' = {| users := users data ++
                   [newUser data (prop req_body "firstName")
                      (prop req_body "lastName") (prop req_body "email")
                      (prop req_body "phone") hash env];
                 nextId := nextId data + 1 |}
    ∧ body r !! "userId" = Some (RJs (JNum (nextId data))).
Proof.
  rewrite signup_by_rules.
  destruct (first_failing_rule data req_body); [done|].
  destruct (hashSync _ _) as [hash|]; [|done].
  intros [= <- <-]. by exists hash.
Qed.

(** X4.  After a successful signup with a text email, a login with that
    email and the same password, which bcrypt verifies against the hash
    it produced, answers 200 with the view of the new record: the id the
    signup returned, the names and email of the signup, and
    hasPreferences false. *)
Theorem signup_then_login data req_body env r data' e hash login_req :
  api_auth_signup hashSync data req_body env = Sent r (Some data') →
  prop req_body "email" = JStr e →
  hashSync (prop req_body "password") (salt env) = Some hash →
  compareSync (prop req_body "password") (JStr hash) = Some true →
  prop login_req "email" = JStr e →
  prop login_req "password" = prop req_body "password" →
  ∃ view,
    api_auth_login compareSync data' login_req
    = Sent {| status := 200;
              body := <["success" := RJs (JBool true)]>
                      (<["message" := RJs (JStr (lit msg_logged_in))]>
                      (<["user" := RObj view]> ∅)) |} None
    ∧ body r !! "userId" = Some (RJs (JNum (nextId data)))
    ∧ view !! "id" = Some (JNum (nextId data))
    ∧ view !! "firstName" = Some (prop req_body "firstName")
    ∧ view !! "lastName" = Some (prop req_body "lastName")
    ∧ view !! "email" = Some (JStr e)
    ∧ view !! "hasPreferences" = Some (JBool false).
Proof.
  intros Hs He Hh Hv Hle Hlp.
  destruct (signup_written _ _ _ _ _ Hs) as (hash' & Hr & Hh' & -> & Hid).
  assert (hash' = hash) as -> by congruence.
  destruct (passed_rules _ _ Hr) as (_ & Hem & Hpw & _ & Hfresh).
  rewrite He in *. unfold email_rule in Hem. unfold password_rule in Hpw.
  apply andb_true_iff in Hem as [Hte _]. apply andb_true_iff in Hpw as [Htp _].
  eexists. split.
  - rewrite login_by_cases, Hle, Hlp, Hte, Htp. simpl.
    rewrite (array_find_app_fresh _ _
               (newUser data (prop req_body "firstName")
                  (prop req_body "lastName") (JStr e) (prop req_body "phone")
                  hash env)).
    + change (prop (newUser _ _ _ _ _ hash _) "password") with (JStr hash).
      rewrite Hv. reflexivity.
    + unfold fresh_rule in Hfresh. by apply negb_true_iff in Hfresh.
    + rewrite newUser_email. simpl. by rewrite bool_decide_true.
  - split; [done|]. repeat split.
Qed.

(** X5.  After a successful signup on a reachable store, the user route
    called with the decimal text of the returned id answers 200 with the
    new record minus its password, and the preference route called with
    the returned id (a number) answers 200 and updates the new record. *)
Theorem signup_then_lookup data req_body env r data' prefs_req :
  reachable hashSync compareSync data →
  api_auth_signup hashSync data req_body env = Sent r (Some data') →
  prop prefs_req "userId" = JNum (nextId data) →
  ∃ hash user,
    hashSync (prop req_body "password") (salt env) = Some hash
    ∧ user = newUser data (prop req_body "firstName")
               (prop req_body "lastName") (prop req_body "email")
               (prop req_body "phone") hash env
    ∧ body r !! "userId" = Some (RJs (JNum (nextId data)))
    ∧ api_users_id data' (num_to_string (nextId data))
      = Sent {| status := 200;
                body := <["success" := RJs (JBool true)]>
                        (<["user" := RObj (delete "password" user)]> ∅) |}
             None
    ∧ api_auth_preferences data' prefs_req
      = Sent {| status := 200;
                body := <["success" := RJs (JBool true)]>
                        (<["message" := RJs (JStr (lit msg_updated))]>
                        (<["user" := RObj (set_preferences prefs_req user)]>
                           ∅)) |}
             (Some {| users := users data ++ [set_preferences prefs_req user];
                      nextId := nextId data + 1 |}).
Proof.
  intros Hreach Hs Hu.
  destruct (consecutive_ids_reachable data Hreach) as [Hn Hid].
  destruct (signup_written _ _ _ _ _ Hs) as (hash & Hr & Hh & -> & Hbody).
  eexists hash, _. split; [done|]. split; [reflexivity|]. split; [done|].
  set (user := newUser _ _ _ _ _ hash env).
  assert (∀ j u, (users data ++ [user]) !! j = Some u →
                 u !! "id" = Some (JNum (1 + Z.of_nat j))) as Hid'.
  { intros j u [Hj | [Hj Hv]]%lookup_app_Some.
    - rewrite (Hid j u Hj). do 2 f_equal. lia.
    - apply list_lookup_singleton_Some in Hv as [Hj0 <-].
      replace (1 + Z.of_nat j) with (nextId data) by lia. reflexivity. }
  destruct (find_by_id (users data ++ [user]) 1 (nextId data) Hid')
    as [Hfind Hindex].
  rewrite bool_decide_true in Hfind, Hindex
    by (rewrite length_app; simpl; lia).
  replace (Z.to_nat (nextId data - 1)) with (length (users data)) in *
    by lia.
  rewrite list_lookup_middle in Hfind by done.
  split.
  - unfold api_users_id. destruct (parseInt_num (nextId data)) as [_ ->].
    simpl. by rewrite Hfind.
  - unfold api_auth_preferences. rewrite Hu.
    destruct (parseInt_num (nextId data)) as [-> _]. simpl.
    assert (nextId data ≠ 0) as Hnz by lia.
    apply Z.eqb_neq in Hnz. rewrite Hnz. simpl.
    rewrite Hindex, list_lookup_middle by done.
    do 3 f_equal.
    replace (length (users data)) with (length (users data) + 0)%nat at 1
      by lia.
    by rewrite insert_app_r.
Qed.

(** ** Records are permanent *)

Lemma record_step data rq j u :
  users data !! j = Some u →
  let data' := store_after data (handle hashSync compareSync data rq) in
  ∃ u',
    users data' !! j = Some u'
    ∧ (∀ k, k ∉ preference_fields → u' !! k = u !! k)
    ∧ (u !! "hasPreferences" = Some (JBool true) →
       u' !! "hasPreferences" = Some (JBool true))
    ∧ (length (users data) ≤ length (users data'))%nat
    ∧ nextId data ≤ nextId data'.
Proof.
  intros Hj.
  destruct (step_cases data rq)
    as [-> | [(b & env & hash & _ & _ & _ & ->) | (b & i & v & _ & Hv & ->)]];
    simpl.
  - exists u. split; [done|]. split; [done|]. split; [done|]. split; lia.
  - exists u. split; [by apply lookup_app_l_Some|]. split; [done|].
    split; [done|]. rewrite length_app. simpl. split; lia.
  - rewrite length_insert. destruct (decide (i = j)) as [<- | Hne].
    + assert (v = u) as -> by congruence.
      exists (set_preferences b u).
      split; [apply list_lookup_insert_eq; by eapply lookup_lt_Some|].
      split; [intros k Hk; by apply set_preferences_frame|].
      split; [intros _; unfold set_preferences; by simplify_map_eq|].
      split; lia.
    + exists u. rewrite list_lookup_insert_ne by done.
      split; [done|]. split; [done|]. split; [done|]. split; lia.
Qed.

Lemma record_run rqs data j u :
  users data !! j = Some u →
  let data' := run_requests hashSync compareSync data rqs in
  ∃ u',
    users data' !! j = Some u'
    ∧ (∀ k, k ∉ preference_fields → u' !! k = u !! k)
    ∧ (u !! "hasPreferences" = Some (JBool true) →
       u' !! "hasPreferences" = Some (JBool true))
    ∧ (length (users data) ≤ length (users data'))%nat
    ∧ nextId data ≤ nextId data'.
Proof.
  revert data u. induction rqs as [|rq rqs IH]; intros data u Hj; simpl.
  { exists u. split; [done|]. split; [done|]. split; [done|]. split; lia. }
  destruct (record_step data rq j u Hj) as (u1 & H1 & Hf1 & Hp1 & Hl1 & Hn1).
  destruct (IH _ u1 H1) as (u2 & H2 & Hf2 & Hp2 & Hl2 & Hn2).
  exists u2. split; [done|].
  split; [intros k Hk; by rewrite Hf2, Hf1|].
  split; [intros Hp; by apply Hp2, Hp1|]. split; lia.
Qed.

(** X6.  Whatever requests are served afterwards, a record of the store
    stays at its position and keeps its id, firstName, lastName, email,
    phone, password and createdAt, and every property other than the six
    the preference route assigns; no request removes or reorders records,
    and neither the number of records nor [nextId] ever decreases. *)
Theorem stored_record_is_permanent rqs data j u :
  users data !! j = Some u →
  ∃ u',
    users (run_requests hashSync compareSync data rqs) !! j = Some u'
    ∧ (∀ k, k ∉ preference_fields → u' !! k = u !! k)
    ∧ u' !! "id" = u !! "id"
    ∧ u' !! "firstName" = u !! "firstName"
    ∧ u' !! "lastName" = u !! "lastName"
    ∧ u' !! "email" = u !! "email"
    ∧ u' !! "phone" = u !! "phone"
    ∧ u' !! "password" = u !! "password"
    ∧ u' !! "createdAt" = u !! "createdAt"
    ∧ (length (users data)
       ≤ length (users (run_requests hashSync compareSync data rqs)))%nat
    ∧ nextId data ≤ nextId (run_requests hashSync compareSync data rqs).
Proof.
  intros Hj.
  destruct (record_run rqs data j u Hj) as (u' & Hu' & Hf & _ & Hl & Hn).
  exists u'. split; [done|]. split; [done|].
  repeat (split; [by apply Hf|]). done.
Qed.

(** X7.  hasPreferences is a one-way flag: once it is true in a record it
    is true in that record after any further sequence of requests. *)
Theorem hasPreferences_is_one_way rqs data j u :
  users data !! j = Some u →
  u !! "hasPreferences" = Some (JBool true) →
  ∃ u',
    users (run_requests hashSync compareSync data rqs) !! j = Some u'
    ∧ u' !! "hasPreferences" = Some (JBool true).
Proof.
  intros Hj Hp.
  destruct (record_run rqs data j u Hj) as (u' & Hu' & _ & Hone & _).
  exists u'. split; [done | by apply Hone].
Qed.

(** ** Emails are unique *)

Lemma strict_eq_sym (a b : JsVal) : strict_eq a b = strict_eq b a.
Proof.
  destruct a, b; simpl; try reflexivity.
  - apply bool_decide_ext. split; congruence.
  - apply Z.eqb_sym.
  - apply bool_decide_ext. split; congruence.
Qed.

Lemma set_preferences_email req_body u :
  prop (set_preferences req_body u) "email" = prop u "email".
Proof. unfold prop. by rewrite set_preferences_frame. Qed.

Lemma emails_step data rq :
  let emails := λ d : Store, (λ u, prop u "email") <$> users d in
  let data' := store_after data (handle hashSync compareSync data rq) in
  emails data' = emails data
  ∨ ∃ e, emails data' = emails data ++ [e]
         ∧ ∀ a, a ∈ emails data → strict_eq a e = false.
Proof.
  simpl.
  destruct (step_cases data rq)
    as [-> | [(b & env & hash & _ & Hr & _ & ->) | (b & i & v & _ & Hv & ->)]];
    simpl; [by left|..].
  - right. exists (prop b "email"). rewrite fmap_app. split; [done|].
    destruct (passed_rules _ _ Hr) as (_ & _ & _ & _ & Hfresh).
    unfold fresh_rule in Hfresh. apply negb_true_iff in Hfresh.
    intros a (u & -> & Hu)%list_elem_of_fmap.
    destruct (strict_eq (prop u "email") (prop b "email")) eqn:Heq; [|done].
    rewrite <- not_true_iff_false in Hfresh. destruct Hfresh.
    apply existsb_exists. exists u. split; [by apply list_elem_of_In | done].
  - left. rewrite list_fmap_insert, set_preferences_email.
    apply list_insert_id. by rewrite list_lookup_fmap, Hv.
Qed.

Lemma emails_distinct_reachable data :
  reachable hashSync compareSync data →
  ∀ i j a b,
    i ≠ j →
    ((λ u, prop u "email") <$> users data) !! i = Some a →
    ((λ u, prop u "email") <$> users data) !! j = Some b →
    strict_eq a b = false.
Proof.
  induction 1 as [|data rq _ IH]; [by intros i j a b _ Hi|].
  destruct (emails_step data rq) as [-> | (e & -> & Hfresh)]; [done|].
  intros i j a b Hne [Hi | [Hi Ha]]%lookup_app_Some
    [Hj | [Hj Hb]]%lookup_app_Some.
  - by eapply IH.
  - apply list_lookup_singleton_Some in Hb as [_ <-].
    apply Hfresh. by eapply list_elem_of_lookup_2.
  - apply list_lookup_singleton_Some in Ha as [_ <-].
    rewrite strict_eq_sym. apply Hfresh. by eapply list_elem_of_lookup_2.
  - apply list_lookup_singleton_Some in Ha as [Hi0 _].
    apply list_lookup_singleton_Some in Hb as [Hj0 _]. lia.
Qed.

Lemma filter_at_most_one (e : jsstring) (l : list JsVal) :
  (∀ i j a b, i ≠ j → l !! i = Some a → l !! j = Some b →
              strict_eq a b = false) →
  (length (List.filter (λ a, strict_eq a (JStr e)) l) ≤ 1)%nat.
Proof.
  induction l as [|x l IH]; intros Hd; simpl; [lia|].
  assert (length (List.filter (λ a, strict_eq a (JStr e)) l) ≤ 1)%nat as Hl.
  { apply IH. intros i j a b Hne Hi Hj. apply (Hd (S i) (S j)); auto. }
  destruct (strict_eq x (JStr e)) eqn:Hx; [|done]. simpl.
  rewrite filter_none; [simpl; lia|].
  apply not_true_iff_false. intros (y & Hy & Hye)%existsb_exists.
  apply list_elem_of_In, list_elem_of_lookup in Hy as [k Hk].
  apply strict_eq_str in Hx as ->. apply strict_eq_str in Hye as ->.
  specialize (Hd 0%nat (S k) (JStr e) (JStr e)).
  simpl in Hd. rewrite bool_decide_true in Hd by done.
  by discriminate Hd.
Qed.

(** X8.  In a reachable store no two records have strictly equal emails;
    in particular at most one record has a given text as its email. *)
Theorem stored_emails_are_unique data :
  reachable hashSync compareSync data →
  (∀ i j u v,
     i ≠ j → users data !! i = Some u → users data !! j = Some v →
     strict_eq (prop u "email") (prop v "email") = false)
  ∧ ∀ e, (count_email (JStr e) data ≤ 1)%nat.
Proof.
  intros Hreach. pose proof (emails_distinct_reachable data Hreach) as Hd.
  split.
  - intros i j u v Hne Hi Hj. apply (Hd i j); [done|..];
      rewrite list_lookup_fmap; by (rewrite Hi || rewrite Hj).
  - intros e. unfold count_email.
    pose proof (filter_at_most_one e _ Hd) as H.
    assert (∀ l : list (gmap string JsVal),
              length (List.filter (λ u, strict_eq (prop u "email") (JStr e)) l)
              = length (List.filter (λ a, strict_eq a (JStr e))
                          ((λ u, prop u "email") <$> l))) as ->; [|done].
    induction l as [|x l IH]; simpl; [done|].
    destruct (strict_eq (prop x "email") (JStr e)); simpl; by rewrite IH.
Qed.

(** ** Stored records are well formed *)

Lemma js_or_truthy (a b : JsVal) :
  truthy (js_or a b) = true ∨ js_or a b = b.
Proof. unfold js_or. destruct (truthy a) eqn:Ha; [by left | by right]. Qed.

Lemma newUser_valid data req_body hash env :
  first_failing_rule data req_body = None →
  valid_record (newUser data (prop req_body "firstName")
                  (prop req_body "lastName") (prop req_body "email")
                  (prop req_body "phone") hash env).
Proof.
  intros (Hname & Hemail & _)%passed_rules.
  split; [exact Hname|]. split; [exact Hemail|].
  split; [by eexists|]. split; [by eexists|].
  split; [done|]. split; [done|]. split; [done|].
  split; [apply js_or_truthy|]. split; [by right|]. split; [done|].
  by eexists.
Qed.

Lemma set_preferences_valid req_body u :
  valid_record u → valid_record (set_preferences req_body u).
Proof.
  intros (Hname & Hemail & Hpw & Hc & _ & _ & _ & Hphone & _).
  unfold valid_record, prop.
  rewrite !(set_preferences_frame req_body u) by done.
  split; [exact Hname|]. split; [exact Hemail|].
  split; [exact Hpw|]. split; [exact Hc|].
  unfold set_preferences. simplify_map_eq.
  split; [by destruct (isArray (prop req_body "preferences")) eqn:?|].
  split; [by destruct (isArray (prop req_body "dietaryRestrictions")) eqn:?|].
  split; [by destruct (isArray (prop req_body "cuisineTypes")) eqn:?|].
  split; [exact Hphone|].
  split; [apply js_or_truthy|].
  split; [|by eexists].
  unfold js_or. by destruct (truthy (prop req_body "minRating")) eqn:?.
Qed.

(** X9.  Every record of a reachable store is well formed: both names
    truthy, an email that passes the email rule, a text password hash and
    creation time, preferences, dietaryRestrictions and cuisineTypes
    arrays, phone and priceRange truthy or the empty string, minRating
    truthy (a rating of 0 is never stored: it is replaced by 3), and
    hasPreferences a boolean. *)
Theorem stored_records_are_valid data :
  reachable hashSync compareSync data → Forall valid_record (users data).
Proof.
  induction 1 as [|data rq _ IH]; [constructor|].
  destruct (step_cases data rq)
    as [-> | [(b & env & hash & _ & Hr & _ & ->) | (b & i & v & _ & Hv & ->)]];
    simpl; [done|..].
  - apply Forall_app. split; [done|].
    constructor; [by apply newUser_valid | constructor].
  - apply Forall_insert; [done|]. apply set_preferences_valid.
    rewrite Forall_forall in IH. apply IH. by eapply list_elem_of_lookup_2.
Qed.

(** ** Updating preferences twice *)

Lemma set_preferences_idempotent req_body u :
  set_preferences req_body (set_preferences req_body u)
  = set_preferences req_body u.
Proof.
  apply map_eq. intros k. unfold set_preferences.
  rewrite !lookup_insert. by repeat case_decide.
Qed.

Lemma array_findIndex_fmap {A} (p : A → bool) (l : list A) :
  array_findIndex p l = array_findIndex id (p <$> l).
Proof. induction l as [|x l IH]; simpl; [done|]. by rewrite IH. Qed.

(** X10.  The preference route is idempotent: serving the same request
    again on the store it wrote gives the same answer and writes the same
    store. *)
Theorem preferences_idempotent data req_body r data' :
  api_auth_preferences data req_body = Sent r (Some data') →
  api_auth_preferences data' req_body = Sent r (Some data').
Proof.
  unfold api_auth_preferences.
  destruct (negb _); [done|].
  destruct (array_findIndex _ (users data)) as [i|] eqn:Hi; [|done].
  destruct (users data !! i) as [u|] eqn:Hu; [|done].
  intros [= <- <-]. simpl.
  assert (array_findIndex
            (λ u, strict_eq_num (prop u "id")
                    (parseInt (prop req_body "userId")))
            (<[i := set_preferences req_body u]> (users data)) = Some i) as ->.
  { rewrite array_findIndex_fmap, list_fmap_insert, set_preferences_id.
    rewrite list_insert_id by (by rewrite list_lookup_fmap, Hu).
    by rewrite <- array_findIndex_fmap. }
  rewrite list_lookup_insert_eq by (by eapply lookup_lt_Some).
  by rewrite set_preferences_idempotent, list_insert_insert_eq.
Qed.

(** ** An email that is not a text *)

(** X11.  The uniqueness check compares with [===], which never holds
    between two arrays: a signup whose email is an array is never refused
    as taken, and when it succeeds, the same signup succeeds again on the
    store it wrote, as soon as bcrypt returns a hash. *)
Theorem array_email_is_never_taken data req_body env l :
  prop req_body "email" = JArr l →
  (∀ data0, first_failing_rule data0 req_body ≠ Some EmailTaken)
  ∧ (outcome_status (api_auth_signup hashSync data req_body env) = Some 201 →
     ∀ env2,
       is_Some (hashSync (prop req_body "password") (salt env2)) →
       outcome_status
         (api_auth_signup hashSync
            (store_after data (api_auth_signup hashSync data req_body env))
            req_body env2) = Some 201).
Proof.
  intros He.
  assert (∀ data0, fresh_rule data0 (prop req_body "email") = true) as Hfresh.
  { intros data0. unfold fresh_rule. rewrite He. apply negb_true_iff.
    induction (users data0) as [|u us IH]; [done|]. simpl.
    by destruct (prop u "email"). }
  split.
  - intros data0. unfold first_failing_rule. rewrite Hfresh.
    by destruct (name_rule _ _), (email_rule _), (password_rule _),
         (confirm_rule _ _).
  - intros H201 env2 [hash2 Hh2]. rewrite !signup_by_rules in *.
    destruct (first_failing_rule data req_body) eqn:Hr; [done|].
    apply passed_rules in Hr as (Hn & Hem & Hp & Hc & _).
    unfold first_failing_rule. rewrite Hn, Hem, Hp, Hc, Hfresh, Hh2. done.
Qed.

(** ** The file under the routes *)

(** X12.  The login route and the user route only read: they pass no
    document to [writeUsers], and serving them leaves [users.json] exactly
    as it was, whatever it holds. *)
Theorem read_only_routes_leave_file fs req_body id :
  outcome_written (api_auth_login compareSync
                     (fst (readUsers JSON_parse fs)) req_body) = None
  ∧ outcome_written (api_users_id (fst (readUsers JSON_parse fs)) id) = None
  ∧ snd (serve JSON_parse JSON_stringify hashSync compareSync fs
           (Login req_body)) = fs
  ∧ snd (serve JSON_parse JSON_stringify hashSync compareSync fs (GetUser id))
    = fs.
Proof.
  assert (∀ data, outcome_written (api_auth_login compareSync data req_body)
                  = None) as Hlogin.
  { intros data. rewrite login_by_cases. destruct (_ || _); [done|].
    destruct (array_find _ _); [|done].
    by destruct (compareSync _ _) as [[|]|]. }
  assert (∀ data, outcome_written (api_users_id data id) = None) as Hget.
  { intros data. unfold api_users_id. by destruct (array_find _ _). }
  split; [apply Hlogin|]. split; [apply Hget|].
  rewrite !serve_reads_and_writes. simpl. by rewrite Hlogin, Hget.
Qed.

(** X13.  [writeUsers] never raises.  On a file that can be written it
    replaces the content by the serialized document, so a second write
    wins over the first and [readUsers] then returns the document written,
    when [JSON.parse] reads back what [JSON.stringify] wrote; on a file
    that cannot be written it changes nothing. *)
Theorem writeUsers_then_readUsers :
  (∀ fs data, writable fs = false → writeUsers JSON_stringify fs data = fs)
  ∧ (∀ fs data,
       writable fs = true →
       content (writeUsers JSON_stringify fs data)
       = Some (JSON_stringify data))
  ∧ (∀ fs d1 d2,
       writable fs = true →
       writeUsers JSON_stringify (writeUsers JSON_stringify fs d1) d2
       = writeUsers JSON_stringify fs d2)
  ∧ (∀ fs data,
       writable fs = true →
       JSON_parse (JSON_stringify data) = Some data →
       fst (readUsers JSON_parse (writeUsers JSON_stringify fs data)) = data).
Proof.
  unfold writeUsers, writeFileSync, readUsers, readFileSync.
  split; [|split; [|split]].
  - by intros fs data ->.
  - by intros fs data ->.
  - by intros fs d1 d2 ->.
  - intros fs data -> Hrt. simpl. by rewrite Hrt.
Qed.

(** X14.  [initializeUsersFile] is idempotent: after it returned, the file
    exists and a second call changes nothing.  On a missing file that
    cannot be written it raises.  After it created the file, [readUsers]
    returns the empty store, when [JSON.parse] reads back what
    [JSON.stringify] wrote. *)
Theorem initializeUsersFile_idempotent :
  (∀ fs fs',
     initializeUsersFile JSON_stringify fs = Some fs' →
     existsSync fs' = true
     ∧ initializeUsersFile JSON_stringify fs' = Some fs')
  ∧ (∀ fs,
       existsSync fs = false → writable fs = false →
       initializeUsersFile JSON_stringify fs = None)
  ∧ (∀ fs fs',
       existsSync fs = false →
       initializeUsersFile JSON_stringify fs = Some fs' →
       JSON_parse (JSON_stringify initialData) = Some initialData →
       fst (readUsers JSON_parse fs') = initialData).
Proof.
  unfold initializeUsersFile, writeFileSync, readUsers, readFileSync,
    existsSync.
  split; [|split].
  - intros fs fs'. destruct (content fs) as [text|] eqn:Hc; simpl.
    + intros [= <-]. by rewrite Hc.
    + destruct (writable fs); [|done]. by intros [= <-].
  - intros fs Hc ->. by destruct (content fs).
  - intros fs fs' Hc. destruct (content fs); [done|]. simpl.
    destruct (writable fs); [|done]. intros [= <-] Hrt. simpl.
    by rewrite Hrt.
Qed.

(** X15.  Serving a request on a file that can be written, the next
    [readUsers] returns the store the handler wrote (or the store as it
    was, when the handler wrote nothing), provided [JSON.parse] reads back
    the document written.  On a file that cannot be written every request
    leaves the file as it was, a signup answered 201 included. *)
Theorem served_store_is_read_back fs rq :
  let data := fst (readUsers JSON_parse fs) in
  let o := handle hashSync compareSync data rq in
  let fs' := snd (serve JSON_parse JSON_stringify hashSync compareSync fs rq) in
  (writable fs = true →
   (∀ d, outcome_written o = Some d → JSON_parse (JSON_stringify d) = Some d) →
   fst (readUsers JSON_parse fs') = store_after data o)
  ∧ (writable fs = false → fs' = fs).
Proof.
  cbv zeta. rewrite serve_reads_and_writes. cbn [snd].
  set (data := fst (readUsers JSON_parse fs)).
  destruct (handle hashSync compareSync data rq) as [r [d|]|]; simpl.
  - split.
    + intros Hw Hrt. unfold writeUsers, writeFileSync. rewrite Hw.
      unfold readUsers, readFileSync. simpl. by rewrite (Hrt d eq_refl).
    + intros Hw. unfold writeUsers, writeFileSync. by rewrite Hw.
  - by split.
  - by split.
Qed.

(** ** What [validateEmail] accepts *)

Lemma not_space_at_spec (c : N) :
  not_space_at c = true → is_space c = false ∧ (c =? 64)%N = false.
Proof.
  unfold not_space_at. rewrite negb_true_iff. apply orb_false_iff.
Qed.

Lemma filter_at_none (l : jsstring) :
  Forall (λ c, not_space_at c = true) l →
  List.filter (λ c, (c =? 64)%N) l = [].
Proof.
  induction 1 as [|c l Hc _ IH]; simpl; [done|].
  apply not_space_at_spec in Hc as [_ ->]. exact IH.
Qed.

Lemma no_space_part (l : jsstring) :
  Forall (λ c, not_space_at c = true) l → Forall (λ c, is_space c = false) l.
Proof.
  intros H. eapply Forall_impl; [exact H|].
  intros c Hc. by apply not_space_at_spec in Hc as [Hc _].
Qed.

(** X16.  A text [validateEmail] accepts holds no white space, exactly one
    [@], a dot after the [@], and at least five code units; it neither
    starts nor ends with the [@]. *)
Theorem validateEmail_requirements (s : jsstring) :
  validateEmail (JStr s) = true →
  Forall (λ c, is_space c = false) s
  ∧ length (List.filter (λ c, (c =? 64)%N) s) = 1%nat
  ∧ (5 ≤ length s)%nat
  ∧ ∃ a rest, s = a ++ 64%N :: rest ∧ a ≠ [] ∧ 46%N ∈ rest.
Proof.
  unfold validateEmail. cbn [to_string]. rewrite regex_test_lang.
  intros (a & b & c & -> & Ha & Hb & Hc & Ha' & Hb' & Hc')%lang_emailRegex.
  split.
  { apply Forall_app. split; [by apply no_space_part|].
    constructor; [done|]. apply Forall_app. split; [by apply no_space_part|].
    constructor; [done | by apply no_space_part]. }
  split.
  { rewrite List.filter_app. simpl. rewrite List.filter_app. simpl.
    by rewrite !filter_at_none. }
  split.
  { rewrite length_app. simpl. rewrite length_app. simpl.
    destruct a, b, c; simpl; try done; lia. }
  exists a, (b ++ 46%N :: c). split; [done|]. split; [done|].
  apply elem_of_app. right. left.
Qed.

Lemma ascii_codes_cons (a : Ascii.ascii) (s : string) :
  ascii_codes (String a s) = Ascii.N_of_ascii a :: ascii_codes s.
Proof. reflexivity. Qed.

Lemma digits_no_at (d : Decimal.uint) :
  64%N ∉ ascii_codes (NilEmpty.string_of_uint d).
Proof.
  induction d as [|d IH|d IH|d IH|d IH|d IH|d IH|d IH|d IH|d IH|d IH];
    [by intros ?%elem_of_nil|..];
    simpl NilEmpty.string_of_uint; rewrite ascii_codes_cons;
    (intros [H|H]%elem_of_cons; [by vm_compute in H | by apply IH]).
Qed.

Lemma num_to_string_no_at (n : Z) : 64%N ∉ num_to_string n.
Proof.
  destruct (num_to_string_cases n)
    as [[_ ->] | [(p & _ & ->) | (p & _ & ->)]].
  - by intros [H|H%elem_of_nil]%elem_of_cons.
  - apply digits_no_at.
  - intros [H|H]%elem_of_cons; [done | by apply digits_no_at in H].
Qed.

Lemma email_has_at (s : jsstring) :
  regex_test emailRegex s = true → 64%N ∈ s.
Proof.
  rewrite regex_test_lang.
  intros (a & b & c & -> & _)%lang_emailRegex.
  apply elem_of_app. right. left.
Qed.

(** X17.  [validateEmail] tests the text its argument converts to: it
    refuses undefined, null, the booleans, every number and the empty
    array, and it accepts an array of one text exactly when it accepts
    that text.  So a signup whose names pass and whose email is neither a
    text nor an array is answered with the message of the email rule. *)
Theorem validateEmail_non_text :
  (∀ v, (∀ s, v ≠ JStr s) → (∀ l, v ≠ JArr l) → validateEmail v = false)
  ∧ validateEmail (JArr []) = false
  ∧ (∀ s, validateEmail (JArr [JStr s]) = validateEmail (JStr s))
  ∧ (∀ data req_body env,
       name_rule (prop req_body "firstName") (prop req_body "lastName") = true →
       (∀ s, prop req_body "email" ≠ JStr s) →
       (∀ l, prop req_body "email" ≠ JArr l) →
       api_auth_signup hashSync data req_body env = failure 400 msg_email).
Proof.
  assert (∀ v, (∀ s, v ≠ JStr s) → (∀ l, v ≠ JArr l) →
               validateEmail v = false) as Hnon.
  { intros [| |[|]|n|s|l] Hs Hl; try reflexivity.
    - apply not_true_iff_false. intros H%email_has_at.
      by apply num_to_string_no_at in H.
    - by destruct (Hs s).
    - by destruct (Hl l). }
  split; [exact Hnon|]. split; [reflexivity|]. split; [reflexivity|].
  intros data req_body env Hname Hs Hl.
  rewrite signup_by_rules. unfold first_failing_rule, email_rule.
  rewrite Hname. change (regex_test emailRegex (to_string ?v))
    with (validateEmail v).
  by rewrite (Hnon _ Hs Hl), andb_false_r.
Qed.

(** ** Ids are parsed leniently *)

Ltac eval_digit :=
  match goal with
  | |- context [digit_value 10 (Ascii.N_of_ascii ?a)] =>
    let v := eval vm_compute in (digit_value 10 (Ascii.N_of_ascii a)) in
    change (digit_value 10 (Ascii.N_of_ascii a)) with v
  end.

Lemma read_digits_uint_then (acc : Z) (d : Decimal.uint) (c : N)
    (rest : jsstring) :
  digit_value 10 c = None →
  read_digits 10 (Some acc)
    (ascii_codes (NilEmpty.string_of_uint d) ++ c :: rest)
  = Some (uint_value acc d).
Proof.
  intros Hc. revert acc.
  induction d as [|d IH|d IH|d IH|d IH|d IH|d IH|d IH|d IH|d IH|d IH];
    intros acc; [simpl; by rewrite Hc|..];
    simpl NilEmpty.string_of_uint; rewrite ascii_codes_cons;
    cbn [app read_digits]; eval_digit; cbn iota; exact (IH _).
Qed.

Lemma nzhead_not_D0 (d d' : Decimal.uint) :
  Decimal.nzhead d ≠ Decimal.D0 d'.
Proof. induction d; simpl; congruence. Qed.

Lemma to_uint_head (p : positive) :
  ∀ d', Pos.to_uint p ≠ Decimal.D0 d'.
Proof.
  intros d' Hd.
  pose proof (DecimalPos.Unsigned.to_of (Pos.to_uint p)) as Hn.
  rewrite DecimalPos.Unsigned.of_to in Hn. simpl in Hn.
  rewrite Hd in Hn. unfold Decimal.unorm in Hn. simpl in Hn.
  destruct (Decimal.nzhead d') eqn:Hz; try discriminate Hn.
  - injection Hn as ->.
    by apply (DecimalPos.Unsigned.to_uint_nonzero p).
  - by apply nzhead_not_D0 in Hz.
Qed.

Lemma skip_space_app (ws s : jsstring) :
  Forall (λ c, is_space c = true) ws → skip_space (ws ++ s) = skip_space s.
Proof. induction 1 as [|c ws Hc _ IH]; simpl; [done|]. by rewrite Hc. Qed.

Lemma parseInt_lenient (p : positive) (ws rest : jsstring) (c : N) :
  Forall (λ c, is_space c = true) ws →
  digit_value 10 c = None →
  parseInt (JStr (ws ++ num_to_string (Z.pos p) ++ c :: rest))
  = Some (Z.pos p).
Proof.
  intros Hws Hc. unfold parseInt. cbn [to_string].
  rewrite skip_space_app by done.
  destruct (num_to_string_cases (Z.pos p))
    as [[? _] | [(q & [= <-] & ->) | (q & ? & _)]]; [done| |done].
  pose proof (to_uint_head p) as Hhead.
  rewrite <- (uint_value_to_uint p).
  destruct (Pos.to_uint p) as [|d|d|d|d|d|d|d|d|d|d] eqn:Hd;
    [by destruct (DecimalPos.Unsigned.to_uint_nonnil p)
    |by destruct (Hhead d)|..];
    simpl NilEmpty.string_of_uint; rewrite ascii_codes_cons;
    cbn [app skip_space];
    match goal with
    | |- context [is_space (Ascii.N_of_ascii ?a)] =>
      change (is_space (Ascii.N_of_ascii a)) with false
    end;
    cbn iota;
    match goal with
    | |- context [strip_sign (Ascii.N_of_ascii ?a :: ?t)] =>
      change (strip_sign (Ascii.N_of_ascii a :: t))
        with (1, Ascii.N_of_ascii a :: t)
    end;
    cbn iota;
    match goal with
    | |- context [strip_hex_prefix (Ascii.N_of_ascii ?a :: ?t)] =>
      change (strip_hex_prefix (Ascii.N_of_ascii a :: t))
        with (10%N, Ascii.N_of_ascii a :: t)
    end;
    cbn iota; cbn [read_digits]; eval_digit;
    cbn iota; rewrite read_digits_uint_then by done;
    f_equal; simpl uint_value; lia.
Qed.

(** X18.  The user route reads its id with [parseInt]: white space before
    a positive id and anything after it that starts with a non-digit are
    ignored, so such a text gets the answer of the id alone. *)
Theorem ids_are_parsed_leniently data (p : positive) (ws rest : jsstring)
    (c : N) :
  Forall (λ c, is_space c = true) ws →
  digit_value 10 c = None →
  api_users_id data (ws ++ num_to_string (Z.pos p) ++ c :: rest)
  = api_users_id data (num_to_string (Z.pos p)).
Proof.
  intros Hws Hc. unfold api_users_id.
  rewrite parseInt_lenient by done.
  by destruct (parseInt_num (Z.pos p)) as [_ ->].
Qed.

End FurtherProperties.

(** ** The further properties on Ana's account *)

Lemma ana_ids_count :
  reachable example_hashSync example_compareSync ana_store
  ∧ nextId ana_store = Z.of_nat (length (users ana_store)) + 1
  ∧ (λ u, prop u "id") <$> users ana_store = [JNum 1].
Proof.
  split; [exact ana_store_reachable|].
  destruct (ids_count_registrations example_hashSync example_compareSync
              ana_store ana_store_reachable) as (Hn & _ & Hl).
  split; [exact Hn | exact Hl].
Defined.

Lemma ana_lookup_by_id :
  (∃ u, users ana_store !! 0%nat = Some u
        ∧ api_users_id ana_store (lit "1")
          = Sent {| status := 200;
                    body := <["success" := RJs (JBool true)]>
                            (<["user" := RObj (delete "password" u)]> ∅) |}
                 None)
  ∧ api_users_id ana_store (lit "2") = failure 404 msg_not_found
  ∧ api_users_id ana_store (lit "0") = failure 404 msg_not_found
  ∧ api_users_id ana_store (lit "abc") = failure 404 msg_not_found.
Proof.
  destruct (user_lookup_by_id example_hashSync example_compareSync ana_store
              ana_store_reachable) as (Hin & Hout & Hnan).
  assert (nextId ana_store = 2) as Hn by reflexivity.
  split.
  - destruct (Hin 1) as (u & Hu & _ & Hr); [lia|].
    exists u. split; [exact Hu | exact Hr].
  - split; [apply (Hout 2); lia|]. split; [apply (Hout 0); lia|].
    apply Hnan. reflexivity.
Defined.


Lemma ana_signup_then_login :
  ∃ view,
    api_auth_login example_compareSync ana_store
      (login_body "ana@x.com" "pass1234")
    = Sent {| status := 200;
              body := <["success" := RJs (JBool true)]>
                      (<["message" := RJs (JStr (lit msg_logged_in))]>
                      (<["user" := RObj view]> ∅)) |} None
    ∧ view !! "id" = Some (JNum 1)
    ∧ view !! "email" = Some (JStr (lit "ana@x.com"))
    ∧ view !! "hasPreferences" = Some (JBool false).
Proof.
  destruct (signup_then_login example_hashSync example_compareSync
              initialData ana_signup example_env _ ana_store
              (lit "ana@x.com") (lit "$2a$pass1234")
              (login_body "ana@x.com" "pass1234")
              eq_refl eq_refl eq_refl eq_refl eq_refl eq_refl)
    as (view & Hr & _ & Hid & _ & _ & He & Hp).
  exists view. split; [exact Hr|]. split; [exact Hid|]. by split.
Defined.

Lemma ana_signup_then_lookup :
  ∃ user,
    users ana_store = [user]
    ∧ api_users_id ana_store (lit "1")
      = Sent {| status := 200;
                body := <["success" := RJs (JBool true)]>
                        (<["user" := RObj (delete "password" user)]> ∅) |}
             None
    ∧ outcome_written (api_auth_preferences ana_store ana_preferences)
      = Some {| users := [set_preferences ana_preferences user];
                nextId := 2 |}.
Proof.
  destruct (signup_then_lookup example_hashSync example_compareSync
              initialData ana_signup example_env _ ana_store ana_preferences
              (reachable_init _ _) eq_refl eq_refl)
    as (hash & user & Hh & -> & _ & Hget & Hprefs).
  injection Hh as <-.
  eexists. split; [reflexivity|]. split; [exact Hget|].
  rewrite Hprefs. reflexivity.
Defined.

Lemma ana_record_is_permanent :
  ∃ u u',
    users ana_store !! 0%nat = Some u
    ∧ users (run_requests example_hashSync example_compareSync ana_store
               later_requests) !! 0%nat = Some u'
    ∧ u' !! "id" = u !! "id"
    ∧ u' !! "email" = u !! "email"
    ∧ u' !! "password" = u !! "password"
    ∧ u' !! "createdAt" = u !! "createdAt"
    ∧ length (users (run_requests example_hashSync example_compareSync
                       ana_store later_requests)) = 2%nat.
Proof.
  assert (∃ u, users ana_store !! 0%nat = Some u) as [u Hu] by (by eexists).
  destruct (stored_record_is_permanent example_hashSync example_compareSync
              later_requests ana_store 0 u Hu)
    as (u' & Hu' & _ & Hid & _ & _ & He & _ & Hp & Hc & _).
  exists u, u'. split; [exact Hu|]. split; [exact Hu'|].
  split; [exact Hid|]. split; [exact He|]. split; [exact Hp|].
  split; [exact Hc | reflexivity].
Defined.

Lemma ana_flag_is_one_way :
  (∃ u, users ana_store_with_preferences !! 0%nat = Some u
        ∧ u !! "hasPreferences" = Some (JBool true))
  ∧ ∃ u',
      users (run_requests example_hashSync example_compareSync
               ana_store_with_preferences later_requests) !! 0%nat = Some u'
      ∧ u' !! "hasPreferences" = Some (JBool true).
Proof.
  assert (∃ u, users ana_store_with_preferences !! 0%nat = Some u
               ∧ u !! "hasPreferences" = Some (JBool true)) as (u & Hu & Hp).
  { eexists. split; reflexivity. }
  split; [by exists u|].
  exact (hasPreferences_is_one_way example_hashSync example_compareSync
           later_requests ana_store_with_preferences 0 u Hu Hp).
Defined.

Lemma ana_emails_are_unique :
  reachable example_hashSync example_compareSync ana_store
  ∧ (count_email (JStr (lit "ana@x.com")) ana_store ≤ 1)%nat
  ∧ (count_email (JStr (lit "bo@x.com")) ana_store ≤ 1)%nat.
Proof.
  split; [exact ana_store_reachable|].
  destruct (stored_emails_are_unique example_hashSync example_compareSync
              ana_store ana_store_reachable) as [_ Hc].
  split; apply Hc.
Defined.

Lemma ana_records_are_valid :
  reachable example_hashSync example_compareSync ana_store
  ∧ Forall valid_record (users ana_store).
Proof.
  split; [exact ana_store_reachable|].
  exact (stored_records_are_valid example_hashSync example_compareSync
           ana_store ana_store_reachable).
Defined.

Lemma ana_preferences_twice :
  ∃ r,
    api_auth_preferences ana_store ana_preferences
    = Sent r (Some ana_store_with_preferences)
    ∧ api_auth_preferences ana_store_with_preferences ana_preferences
      = Sent r (Some ana_store_with_preferences).
Proof.
  eexists. split; [reflexivity|].
  exact (preferences_idempotent ana_store ana_preferences _
           ana_store_with_preferences eq_refl).
Defined.

Lemma array_email_signed_up_twice :
  prop array_email_signup "email" = JArr [JStr (lit "ana@x.com")]
  ∧ outcome_status
      (api_auth_signup example_hashSync initialData array_email_signup
         example_env) = Some 201
  ∧ outcome_status
      (api_auth_signup example_hashSync
         (store_after initialData
            (api_auth_signup example_hashSync initialData array_email_signup
               example_env))
         array_email_signup example_env) = Some 201.
Proof.
  split; [reflexivity|]. split; [reflexivity|].
  destruct (array_email_is_never_taken example_hashSync initialData
              array_email_signup example_env [JStr (lit "ana@x.com")] eq_refl)
    as [_ Htwice].
  apply Htwice; [reflexivity|]. by eexists.
Defined.

Lemma ana_write_then_read :
  fst (readUsers ana_JSON_parse
         (writeUsers ana_JSON_stringify fresh_file ana_store)) = ana_store
  ∧ writeUsers ana_JSON_stringify
      (writeUsers ana_JSON_stringify fresh_file initialData) ana_store
    = writeUsers ana_JSON_stringify fresh_file ana_store
  ∧ writeUsers ana_JSON_stringify readonly_file ana_store = readonly_file.
Proof.
  destruct (writeUsers_then_readUsers ana_JSON_parse ana_JSON_stringify)
    as (Hro & _ & Hlast & Hrt).
  split; [by apply Hrt|]. split; [by apply Hlast | by apply Hro].
Defined.

Lemma initialize_twice :
  initializeUsersFile ana_JSON_stringify absent_file = Some fresh_file
  ∧ initializeUsersFile ana_JSON_stringify fresh_file = Some fresh_file
  ∧ fst (readUsers ana_JSON_parse fresh_file) = initialData
  ∧ initializeUsersFile ana_JSON_stringify
      {| content := None; writable := false |} = None.
Proof.
  destruct (initializeUsersFile_idempotent ana_JSON_parse ana_JSON_stringify)
    as (Hidem & Hraise & Hread).
  split; [reflexivity|].
  split; [by apply (Hidem absent_file fresh_file)|].
  split; [by apply (Hread absent_file fresh_file)|].
  by apply Hraise.
Defined.

Lemma ana_signup_is_read_back :
  fst (readUsers ana_JSON_parse
         (snd (serve ana_JSON_parse ana_JSON_stringify example_hashSync
                 example_compareSync fresh_file
                 (Signup ana_signup example_env)))) = ana_store
  ∧ snd (serve ana_JSON_parse ana_JSON_stringify example_hashSync
           example_compareSync readonly_file (Signup ana_signup example_env))
    = readonly_file.
Proof.
  split.
  - destruct (served_store_is_read_back example_hashSync example_compareSync
                ana_JSON_parse ana_JSON_stringify fresh_file
                (Signup ana_signup example_env)) as [Hw _].
    apply Hw; [reflexivity|]. intros d [= <-]. reflexivity.
  - destruct (served_store_is_read_back example_hashSync example_compareSync
                ana_JSON_parse ana_JSON_stringify readonly_file
                (Signup ana_signup example_env)) as [_ Hro].
    by apply Hro.
Defined.

Lemma ana_email_requirements :
  validateEmail (JStr (lit "ana@x.com")) = true
  ∧ length (List.filter (λ c, (c =? 64)%N) (lit "ana@x.com")) = 1%nat
  ∧ Forall (λ c, is_space c = false) (lit "ana@x.com").
Proof.
  split; [reflexivity|].
  destruct (validateEmail_requirements (lit "ana@x.com") eq_refl)
    as (Hsp & Hat & _).
  by split.
Defined.

Lemma number_email_refused :
  validateEmail (JNum 42) = false
  ∧ api_auth_signup example_hashSync initialData
      (<["email" := JNum 42]> ana_signup) example_env
    = failure 400 msg_email.
Proof.
  destruct (validateEmail_non_text example_hashSync) as (Hnon & _ & _ & Hs).
  split; [by apply Hnon|]. by apply Hs.
Defined.

Lemma lenient_id_example :
  api_users_id ana_store (lit " 1abc") = api_users_id ana_store (lit "1")
  ∧ outcome_status (api_users_id ana_store (lit " 1abc")) = Some 200.
Proof.
  split; [|reflexivity].
  apply (ids_are_parsed_leniently ana_store 1 (lit " ") (lit "bc") 97%N).
  - by repeat constructor.
  - reflexivity.
Defined.
